(** * Steam market parser: extraction, filtering and paging

    A shallow embedding of [steam_parser.py] (class [SteamMarketParser]) and
    of the part of [main.py] that drives it, with the properties of the
    listing-extraction and filtering engine proved about the embedding.

    Conventions of the embedding.
    - A Python [str] is the list of its Unicode code points ([str := list N]).
    - A Python [int] is a [Z].
    - A Python [float] is the rational number ([Q]) it holds, and an
      operation on floats rounds its exact result to binary64, to nearest
      with ties to even ([round64]): [price_cents / 100.0] converts the
      integer to a float and divides, rounding twice.  Comparisons of
      numbers are exact, as they are in Python.  Amounts stay within the
      normal range of binary64 (no overflow to infinity, no subnormal
      number, no NaN), which holds for prices of fewer than 300 digits.
    - A [dict] read with [.get(key, default)] is a record whose fields are
      [option]s ([None]: the key is absent).
    - The two Unicode tables the interpreter consults and that cannot be
      written out here (decimal digits for [\d] and [int], lower-casing for
      [str.lower]) are parameters of the development ([unicode_db]); nothing
      is assumed about them.  [int] is taken without the interpreter's
      optional limit on the number of digits. *)

From Stdlib Require Import ZArith NArith QArith Lia Lqa List Bool String Ascii DecimalString.
From stdpp Require Import base option list sorting gmap.

Local Open Scope Z_scope.

(* ===================================================================== *)
(** ** Strings *)
(* ===================================================================== *)

Definition char := N.
Definition str := list N.

(** Source literals are written as Rocq strings, that is as their UTF-8
    bytes; [utf8] decodes them into code points. *)
Fixpoint utf8_cont (n : nat) (acc : N) (bs : list N) : N * list N :=
  match n, bs with
  | S n', b :: bs' => utf8_cont n' (acc * 64 + (b - 128))%N bs'
  | _, _ => (acc, bs)
  end.

Fixpoint utf8_decode (fuel : nat) (bs : list N) : str :=
  match fuel, bs with
  | S fuel', b :: bs' =>
      if (b <? 128)%N then b :: utf8_decode fuel' bs'
      else if (b <? 224)%N then
        let '(c, r) := utf8_cont 1 (b - 192)%N bs' in c :: utf8_decode fuel' r
      else if (b <? 240)%N then
        let '(c, r) := utf8_cont 2 (b - 224)%N bs' in c :: utf8_decode fuel' r
      else
        let '(c, r) := utf8_cont 3 (b - 240)%N bs' in c :: utf8_decode fuel' r
  | _, _ => []
  end.

Definition utf8 (s : string) : str :=
  let bs := map N_of_ascii (list_ascii_of_string s) in
  utf8_decode (length bs) bs.

Definition chr (s : string) : char := hd 0%N (utf8 s).

(** [needle in hay] on strings. *)
Fixpoint startswith (p s : str) : bool :=
  match p, s with
  | [], _ => true
  | a :: p', b :: s' => (a =? b)%N && startswith p' s'
  | _ :: _, [] => false
  end.

Fixpoint str_in (needle hay : str) : bool :=
  startswith needle hay ||
  match hay with
  | [] => false
  | _ :: hay' => str_in needle hay'
  end.

Definition str_eqb (a b : str) : bool := bool_decide (a = b).

(** Characters for which [str.isspace] holds; the same table drives
    [str.strip()] and [\s] of a [str] pattern. *)
Definition is_space (c : char) : bool :=
  ((9 <=? c) && (c <=? 13) || (28 <=? c) && (c <=? 32)
   || (c =? 133) || (c =? 160) || (c =? 5760)
   || (8192 <=? c) && (c <=? 8202)
   || (c =? 8232) || (c =? 8233) || (c =? 8239) || (c =? 8287)
   || (c =? 12288))%N.

Fixpoint lstrip (s : str) : str :=
  match s with
  | c :: s' => if is_space c then lstrip s' else s
  | [] => []
  end.

Definition rstrip (s : str) : str := rev (lstrip (rev s)).

Definition strip (s : str) : str := rstrip (lstrip s).

(** The interpreter's Unicode tables. *)
Record unicode_db := {
  (** value of a decimal digit (category Nd), [None] for any other character *)
  decimal : char -> option Z;
  (** [str.lower] *)
  lower : str -> str
}.

(** The tables restricted to Basic Latin and the Russian/Ukrainian part of
    the Cyrillic block, on which they agree with the interpreter's; used
    for the concrete scenarios. *)
Definition ascii_decimal (c : char) : option Z :=
  if ((48 <=? c) && (c <=? 57))%N then Some (Z.of_N c - 48) else None.

Definition basic_lower_char (c : char) : char :=
  if ((65 <=? c) && (c <=? 90))%N then (c + 32)%N
  else if ((1040 <=? c) && (c <=? 1071))%N then (c + 32)%N
  else if ((1024 <=? c) && (c <=? 1039))%N then (c + 80)%N
  else c.

Definition basic_db : unicode_db :=
  {| decimal := ascii_decimal; lower := map basic_lower_char |}.

(* ===================================================================== *)
(** ** Regular expressions ([re]) *)
(* ===================================================================== *)

(** The fragment of [re] syntax the parser uses.  [Plus] is the greedy [+]
    applied to a character class, [Opt] the greedy [?], [Grp] the capturing
    group (the patterns have at most one, group 1). *)
Inductive regex : Type :=
| Eps
| Cls (p : char -> bool)
| Cat (r1 r2 : regex)
| Alt (r1 r2 : regex)
| Opt (r : regex)
| Plus (p : char -> bool)
| Grp (r : regex).

(** A match object: what follows the match in the subject, and group 1. *)
Record re_match_obj := MatchObj { m_rest : str; m_group1 : option str }.

Section Matcher.
Context {A : Type}.

(** Greedy repetition of a class: the longest run first, shorter ones
    on backtracking. *)
Fixpoint star_cls (p : char -> bool) (s : str) (k : str -> option A)
  : option A :=
  match s with
  | c :: s' =>
      if p c then
        match star_cls p s' k with
        | Some x => Some x
        | None => k s
        end
      else k s
  | [] => k []
  end.

(** Backtracking matcher in continuation-passing style: [k] is what
    remains of the pattern; the first alternative that lets the whole
    pattern succeed wins. *)
Fixpoint rmatch (r : regex) (s : str) (g : option str)
    (k : str -> option str -> option A) : option A :=
  match r with
  | Eps => k s g
  | Cls p =>
      match s with
      | c :: s' => if p c then k s' g else None
      | [] => None
      end
  | Cat r1 r2 => rmatch r1 s g (fun s' g' => rmatch r2 s' g' k)
  | Alt r1 r2 =>
      match rmatch r1 s g k with
      | Some x => Some x
      | None => rmatch r2 s g k
      end
  | Opt r1 =>
      match rmatch r1 s g k with
      | Some x => Some x
      | None => k s g
      end
  | Plus p =>
      match s with
      | c :: s' => if p c then star_cls p s' (fun s'' => k s'' g) else None
      | [] => None
      end
  | Grp r1 =>
      rmatch r1 s g
        (fun s' _ => k s' (Some (take (length s - length s') s)))
  end.
End Matcher.

(** [re.match]: a match anchored at the start of [s]. *)
Definition re_match (r : regex) (s : str) : option re_match_obj :=
  rmatch r s None (fun s' g => Some (MatchObj s' g)).

(** [re.search]: the leftmost position at which the pattern matches. *)
Fixpoint re_search (r : regex) (s : str) : option re_match_obj :=
  match re_match r s with
  | Some m => Some m
  | None =>
      match s with
      | [] => None
      | _ :: s' => re_search r s'
      end
  end.

(** [re.sub(r, '', s)]: every leftmost non-overlapping match is deleted.
    [skip] counts the characters of the current match still to be dropped. *)
Fixpoint re_sub_empty_from (r : regex) (skip : nat) (s : str) : str :=
  match s with
  | [] => []
  | c :: s' =>
      match skip with
      | S n => re_sub_empty_from r n s'
      | O =>
          match re_match r s with
          | Some m =>
              match (length s - length (m_rest m))%nat with
              | S n => re_sub_empty_from r n s'
              | O => c :: re_sub_empty_from r O s'
              end
          | None => c :: re_sub_empty_from r O s'
          end
      end
  end.

Definition re_sub_empty (r : regex) (s : str) : str := re_sub_empty_from r 0 s.

(** Pattern combinators. *)
Definition one_of (cs : string) : regex :=
  Cls (fun c => existsb (N.eqb c) (utf8 cs)).

Definition lit_str (l : str) : regex :=
  fold_right (fun c r => Cat (Cls (N.eqb c)) r) Eps l.

Definition lit (l : string) : regex := lit_str (utf8 l).

Definition cat (rs : list regex) : regex := fold_right Cat Eps rs.

Definition is_gt (c : char) : bool := (c =? chr ">")%N.

(** [<[^>]+>] *)
Definition tag_re : regex :=
  cat [lit "<"; Plus (fun c => negb (is_gt c)); lit ">"].

(** [[Ll]ocked|[Зз]аблокировано|[Зз]аблоковано] *)
Definition locked_re : regex :=
  Alt (cat [one_of "Ll"; lit "ocked"])
      (Alt (cat [one_of "Зз"; lit "аблокировано"])
           (cat [one_of "Зз"; lit "аблоковано"])).

Section Patterns.
Context (db : unicode_db).

Definition is_digit (c : char) : bool :=
  match decimal db c with Some _ => true | None => false end.

(** [int(s)] for a string of decimal digits, which is what group 1 of the
    style patterns holds ([style_capture_digits] below). *)
Definition py_int (s : str) : Z :=
  fold_left (fun acc c => 10 * acc + default 0 (decimal db c)) s 0.

(** [[Uu]pgrade\s+[Ss]tyle\s+(\d+)] *)
Definition upgrade_style_re : regex :=
  cat [one_of "Uu"; lit "pgrade"; Plus is_space; one_of "Ss"; lit "tyle";
       Plus is_space; Grp (Plus is_digit)].

(** [[Ss]tyle\s+(\d+)] *)
Definition style_re : regex :=
  cat [one_of "Ss"; lit "tyle"; Plus is_space; Grp (Plus is_digit)].

(** [[Сс]тиль[- ]улучшение\s+(\d+)] *)
Definition ru_style_re : regex :=
  cat [one_of "Сс"; lit "тиль"; one_of "- "; lit "улучшение";
       Plus is_space; Grp (Plus is_digit)].

(** [[Ss]tyle(?:\s+[Uu]pgrade)?\s+(\d+)] *)
Definition tag_style_re : regex :=
  cat [one_of "Ss"; lit "tyle";
       Opt (cat [Plus is_space; one_of "Uu"; lit "pgrade"]);
       Plus is_space; Grp (Plus is_digit)].

(** [int(m.group(1))] *)
Definition group1_int (m : re_match_obj) : Z :=
  py_int (default [] (m_group1 m)).
End Patterns.

(* ===================================================================== *)
(** ** Records of the market's JSON *)
(* ===================================================================== *)

(** An entry of [descriptions]: [{"type": ..., "value": ...}]. *)
Record description := Description {
  desc_type : option str;
  desc_value : option str
}.

(** An entry of [tags]. *)
Record tag := Tag {
  localized_tag_name : option str;
  tag_name : option str
}.

(** [desc.get("value", '')] *)
Definition get_value (d : description) : str := default [] (desc_value d).

(** [re.sub(r'<[^>]+>', '', value).strip()] *)
Definition clean_markup (value : str) : str :=
  strip (re_sub_empty tag_re value).

(** Truth value of a string / of a list. *)
Definition truthy {T} (l : list T) : bool :=
  match l with [] => false | _ :: _ => true end.

(* ===================================================================== *)
(** ** Attribute extraction *)
(* ===================================================================== *)

(** Body of the loop of [extract_gems_from_descriptions]. *)
Definition gems_step (gems : list str) (d : description) : list str :=
  let value := get_value d in
  if str_in (utf8 "Prismatic:") value || str_in (utf8 "Ethereal:") value then
    let clean := clean_markup value in
    if truthy clean then gems ++ [clean] else gems
  else if bool_decide (desc_type d = Some (utf8 "html"))
          && str_in (utf8 "color") value then
    let clean := clean_markup value in
    if truthy clean
       && (str_in (utf8 "Gem") clean || str_in (utf8 "Prismatic") clean
           || str_in (utf8 "Ethereal") clean)
    then gems ++ [clean] else gems
  else gems.

(** [extract_gems_from_descriptions]; the guard [if not descriptions]
    returns the empty list, which is what the loop gives on no entry. *)
Definition extract_gems_from_descriptions (descriptions : list description)
  : list str :=
  fold_left gems_step descriptions [].

(** Body of the loop of [extract_socket_gems]; the state is
    [(in_socket_section, gems)]. *)
Definition socket_step (st : bool * list str) (d : description)
  : bool * list str :=
  let '(in_socket_section, gems) := st in
  let value := get_value d in
  let in_socket_section :=
    if str_in (utf8 "Socket") value || str_in (utf8 "Gem") value
    then true else in_socket_section in
  if in_socket_section then
    let clean := clean_markup value in
    if truthy clean
       && negb (existsb (str_eqb clean) [[]; utf8 "Empty Socket"])
    then (in_socket_section, gems ++ [clean])
    else (in_socket_section, gems)
  else (in_socket_section, gems).

Definition extract_socket_gems (descriptions : list description) : list str :=
  snd (fold_left socket_step descriptions (false, [])).

(** The two calls as [_process_page_listings] makes them:
    [gems = extract_gems_from_descriptions(descriptions)], then
    [if not gems: gems = extract_socket_gems(descriptions)]. *)
Definition extract_gems (descriptions : list description) : list str :=
  let gems := extract_gems_from_descriptions descriptions in
  if truthy gems then gems else extract_socket_gems descriptions.

(** [if style_num not in styles: styles.append(style_num)] *)
Definition append_new (styles : list Z) (style_num : Z) : list Z :=
  if bool_decide (style_num ∈ styles) then styles else styles ++ [style_num].

Section Extract.
Context (db : unicode_db).

(** Body of the loop of [extract_unlocked_styles]. *)
Definition styles_step (styles : list Z) (d : description) : list Z :=
  let value := get_value d in
  let clean := clean_markup value in
  match re_search locked_re clean with
  | Some _ => styles
  | None =>
      match re_search (upgrade_style_re db) clean with
      | Some en_match => append_new styles (group1_int db en_match)
      | None =>
          match re_search (style_re db) clean with
          | Some en_alt_match => append_new styles (group1_int db en_alt_match)
          | None =>
              match re_search (ru_style_re db) clean with
              | Some ru_match => append_new styles (group1_int db ru_match)
              | None => styles
              end
          end
      end
  end.

(** [extract_unlocked_styles]: [sorted(styles)] after the loop. *)
Definition extract_unlocked_styles (descriptions : list description)
  : list Z :=
  merge_sort Z.le (fold_left styles_step descriptions []).

(** [tag.get("localized_tag_name", '') or tag.get("name", '')] *)
Definition tag_text (t : tag) : str :=
  let l := default [] (localized_tag_name t) in
  if truthy l then l else default [] (tag_name t).

(** Body of the loop of [get_max_style_from_tags]: two independent [if]s. *)
Definition max_style_step (max_style : Z) (t : tag) : Z :=
  let name := tag_text t in
  let max_style :=
    match re_search (tag_style_re db) name with
    | Some m =>
        let style_num := group1_int db m in
        if max_style <? style_num then style_num else max_style
    | None => max_style
    end in
  match re_search (ru_style_re db) name with
  | Some ru_match =>
      let style_num := group1_int db ru_match in
      if max_style <? style_num then style_num else max_style
  | None => max_style
  end.

(** [get_max_style_from_tags]; on no tag the guard returns [None], as
    the loop followed by the final test does. *)
Definition get_max_style_from_tags (tags : list tag) : option Z :=
  let max_style := fold_left max_style_step tags 0 in
  if 0 <? max_style then Some max_style else None.
End Extract.

(* ===================================================================== *)
(** ** Listings of one page: [_process_page_listings] *)
(* ===================================================================== *)

(** [listing["asset"]]: [appid] is a JSON number, the other two strings. *)
Record asset_ref := AssetRef {
  asset_appid : option Z;
  asset_contextid : option str;
  asset_id : option str
}.

(** An entry of [listinginfo]. *)
Record listing := Listing {
  converted_price : option Z;
  converted_fee : option Z;
  asset : option asset_ref
}.

(** An asset description, [assets[appid][contextid][assetid]]: the keys
    read for the name, the gems and the styles, and whether the dictionary
    has any other key. *)
Record asset_description := AssetDescription {
  market_hash_name : option str;
  descriptions : option (list description);
  tags : option (list tag);
  other_keys : bool
}.

(** Truth value of the dictionary: it has a key. *)
Definition truthy_desc (d : asset_description) : bool :=
  bool_decide (is_Some (market_hash_name d))
  || bool_decide (is_Some (descriptions d))
  || bool_decide (is_Some (tags d))
  || other_keys d.

(** [assets]: [appid -> contextid -> assetid -> description]. *)
Abbreviation assets_map := (gmap str (gmap str (gmap str asset_description))).

(** The instance state the methods read: [self.app_id] and
    [self.notified_listings]. *)
Record parser := Parser {
  app_id : Z;
  notified_listings : gset str
}.

(** An element of the result of [parse_listings]; of the keys of the
    dictionary those that depend on price, identity and attributes
    (["price"], ["link"], ["inspect_link"] and ["image_url"] are formatting
    of the same data and are left out). *)
Record item := Item {
  it_name : str;
  it_price_value : Q;
  it_listing_id : str;
  it_gems : list str;
  it_styles : list Z;
  it_page : Z
}.

(** [str(n)] for an [int]. *)
Definition py_str (n : Z) : str :=
  map N_of_ascii
      (list_ascii_of_string (NilEmpty.string_of_int (Z.to_int n))).

(** [a > b] on numbers. *)
Definition Qgtb (a b : Q) : bool := negb (Qle_bool a b).

(** The integer nearest to [n / d], the even one of the two when it lies
    half-way ([d] positive). *)
Definition round_half_even (n d : Z) : Z :=
  let q := n / d in
  let r := n mod d in
  match 2 * r ?= d with
  | Lt => q
  | Gt => q + 1
  | Eq => if Z.even q then q else q + 1
  end.

(** The binary64 number nearest to [n / d] ([n] and [d] positive): the
    quotient is scaled by a power of 2 into [[2^52, 2^53)], rounded to an
    integer of 53 bits, and scaled back. *)
Definition round_pos (n d : Z) : Q :=
  let a := Z.log2 n in
  let b := Z.log2 d in
  let p := if n * 2 ^ b <? d * 2 ^ a then b + 53 else b + 52 in
  let m := round_half_even (n * 2 ^ p) (d * 2 ^ a) in
  (m * 2 ^ a) # Z.to_pos (2 ^ p).

(** Rounding to binary64: to nearest, ties to even. *)
Definition round64 (x : Q) : Q :=
  let x := Qred x in
  Qred match Qnum x with
       | Z0 => 0
       | Zpos n => round_pos (Zpos n) (Zpos (Qden x))
       | Zneg n => - round_pos (Zpos n) (Zpos (Qden x))
       end%Q.

(** [price_usd = price_cents / 100.0]: the integer is converted to a float
    and divided by the float 100. *)
Definition usd_of_cents (price_cents : Z) : Q :=
  round64 (round64 (inject_Z price_cents) / 100)%Q.

(** [listing.get("converted_price", 0) + listing.get("converted_fee", 0)] *)
Definition price_cents_of (l : listing) : Z :=
  default 0 (converted_price l) + default 0 (converted_fee l).

(** [max_price > 0 and price_usd > max_price] *)
Definition over_max_price (max_price price_usd : Q) : bool :=
  Qgtb max_price 0 && Qgtb price_usd max_price.

(** [if desired:] for an argument that is [None] or a list. *)
Definition given {T} (desired : option (list T)) : bool :=
  match desired with
  | Some l => truthy l
  | None => false
  end.

(** What the body of the loop did with a listing: one constructor for each
    [continue] and one for the [append]. *)
Inductive outcome :=
| SkipNotified
| RejectPrice
| RejectGems
| RejectStyles
| Keep (it : item).

(** The work done for a listing, in the order of the code. *)
Inductive event :=
| EvPrice (listing_id : str)
| EvAssetLookup (listing_id : str)
| EvExtract (listing_id : str).

Definition event_id (e : event) : str :=
  match e with
  | EvPrice i | EvAssetLookup i | EvExtract i => i
  end.

Section Page.
Context (db : unicode_db).

(** The [any(...)] of the gems filter. *)
Definition gems_match (desired_gems gems : list str) : bool :=
  let gems_lower := map (lower db) gems in
  existsb (fun desired =>
             existsb (fun gem_text => str_in (lower db desired) gem_text)
                     gems_lower)
          desired_gems.

(** [any(s in styles for s in desired_styles)] *)
Definition has_desired_style (desired_styles styles : list Z) : bool :=
  existsb (fun s => bool_decide (s ∈ styles)) desired_styles.

(** The block [if item_desc: ...]: name, gems and styles of the item. *)
Definition describe_item (item_name : str) (item_desc : asset_description)
  : str * list str * list Z :=
  let actual_name := default item_name (market_hash_name item_desc) in
  let descriptions := default [] (descriptions item_desc) in
  let tags := default [] (tags item_desc) in
  let gems := extract_gems descriptions in
  let styles := extract_unlocked_styles db descriptions in
  let styles :=
    if truthy styles then styles
    else match get_max_style_from_tags db tags with
         | Some max_style =>
             if bool_decide (max_style ≠ 0) then seqZ 1 max_style else styles
         | None => styles
         end in
  (actual_name, gems, styles).

(** The nested lookup [assets[app_id][context_id][asset_id]]. *)
Definition find_item_desc (self : parser) (assets : assets_map) (l : listing)
  : option asset_description :=
  let asset_info := default (AssetRef None None None) (asset l) in
  let app_id := py_str (default (app_id self) (asset_appid asset_info)) in
  let context_id := default (utf8 "2") (asset_contextid asset_info) in
  let asset_id := default [] (asset_id asset_info) in
  by_app ← assets !! app_id;
  by_context ← by_app !! context_id;
  by_context !! asset_id.

(** Body of the loop of [_process_page_listings] for one entry of
    [listinginfo]: the work done and what became of the listing.  The
    test [if item_desc] fails when no description is found and when the
    one found is the empty dictionary. *)
Definition process_listing (self : parser) (assets : assets_map)
    (item_name : str) (desired_gems : option (list str))
    (desired_styles : option (list Z)) (max_price : Q) (page_num : Z)
    (entry : str * listing) : list event * outcome :=
  let '(listing_id, l) := entry in
  if bool_decide (listing_id ∈ notified_listings self) then ([], SkipNotified)
  else
    let price_cents := price_cents_of l in
    let price_usd := usd_of_cents price_cents in
    if over_max_price max_price price_usd then
      ([EvPrice listing_id], RejectPrice)
    else
      let item_desc := find_item_desc self assets l in
      let '(work, (actual_name, gems, styles)) :=
        match item_desc with
        | Some d =>
            if truthy_desc d then
              ([EvPrice listing_id; EvAssetLookup listing_id;
                EvExtract listing_id],
               describe_item item_name d)
            else
              ([EvPrice listing_id; EvAssetLookup listing_id],
               (item_name, [], []))
        | None =>
            ([EvPrice listing_id; EvAssetLookup listing_id],
             (item_name, [], []))
        end in
      if given desired_gems
         && negb (gems_match (default [] desired_gems) gems)
      then (work, RejectGems)
      else if given desired_styles
              && negb (has_desired_style (default [] desired_styles) styles)
      then (work, RejectStyles)
      else
        (work,
         Keep {| it_name := actual_name;
                 it_price_value := price_usd;
                 it_listing_id := listing_id;
                 it_gems := gems;
                 it_styles := styles;
                 it_page := page_num |}).

(** [found_items.append(...)] for the kept listings. *)
Definition page_step (self : parser) (assets : assets_map)
    (item_name : str) (desired_gems : option (list str))
    (desired_styles : option (list Z)) (max_price : Q) (page_num : Z)
    (acc : list event * list item) (entry : str * listing)
  : list event * list item :=
  let '(work, o) :=
    process_listing self assets item_name desired_gems desired_styles
                    max_price page_num entry in
  (fst acc ++ work,
   match o with
   | Keep it => snd acc ++ [it]
   | _ => snd acc
   end).

(** [_process_page_listings], with the work it did; [listinginfo] is
    the dictionary in iteration order. *)
Definition process_page_traced (self : parser)
    (listinginfo : list (str * listing)) (assets : assets_map)
    (item_name : str) (desired_gems : option (list str))
    (desired_styles : option (list Z)) (max_price : Q) (page_num : Z)
  : list event * list item :=
  fold_left
    (page_step self assets item_name desired_gems desired_styles max_price
               page_num)
    listinginfo ([], []).

Definition _process_page_listings (self : parser)
    (listinginfo : list (str * listing)) (assets : assets_map)
    (item_name : str) (desired_gems : option (list str))
    (desired_styles : option (list Z)) (max_price : Q) (page_num : Z)
  : list item :=
  snd (process_page_traced self listinginfo assets item_name desired_gems
                           desired_styles max_price page_num).
End Page.

(** [mark_as_notified] *)
Definition mark_as_notified (self : parser) (listing_id : str) : parser :=
  {| app_id := app_id self;
     notified_listings := notified_listings self ∪ {[listing_id]} |}.

(* ===================================================================== *)
(** ** The network: [get_item_listings_page] and [parse_listings] *)
(* ===================================================================== *)

(** The decoded body of a successful response: [data]. *)
Record page_data := PageData {
  success : bool;                                (* truth of data.get("success") *)
  total_count : option Z;
  listinginfo : option (list (str * listing));
  assets : option assets_map
}.

(** What [response.json()] does with the body.  [BadJson]: the body is
    no JSON text and [json()] raises [requests.exceptions.JSONDecodeError],
    which is a [RequestException] as well as a [ValueError], so that of two
    handlers the one listed first takes it.  [NotObject]: the body is a
    JSON value other than an object ([null], a list, a number, a string),
    on which [data.get] raises [AttributeError].  [Json]: an object. *)
Inductive body :=
| BadJson
| NotObject
| Json (data : page_data).

(** The exceptions that no handler of the parser takes. *)
Inductive exn :=
| AttributeError.

(** How a call ends. *)
Inductive result (A : Type) :=
| Returned (a : A)
| Raised (e : exn).
Arguments Returned {A} a.
Arguments Raised {A} e.

(** What one turn of the [try] block meets, by the handler that deals
    with it: [RequestException] stands for any exception of that class
    raised in the block (timeout, connection failure), [Response] for a
    response received. *)
Inductive http_outcome :=
| RequestException
| Response (status_code : Z) (b : body).

(** What the program has done to the outside so far: the number of
    requests sent and the pauses taken ([time.sleep], in seconds). *)
Record world := World {
  requests : nat;
  slept : list Z
}.

(** Computations that act on the world. *)
Definition io (A : Type) : Type := world -> A * world.

Definition ret {A} (a : A) : io A := fun w => (a, w).

Definition bind {A B} (m : io A) (f : A -> io B) : io B :=
  fun w => let '(a, w') := m w in f a w'.

Declare Scope io_scope.
Delimit Scope io_scope with io.
Notation "x <- m ;; f" := (bind m (fun x => f))
  (at level 20, m at level 99, f at level 200, only parsing) : io_scope.
Notation "m >>> f" := (bind m (fun _ => f))
  (at level 100, f at level 200, only parsing, right associativity)
  : io_scope.

(** [time.sleep(seconds)] *)
Definition sleep (seconds : Z) : io unit :=
  fun w => (tt, {| requests := requests w; slept := slept w ++ [seconds] |}).

(** [response.raise_for_status()] raises (an [HTTPError], which is a
    [RequestException]) for the status codes 400 to 599. *)
Definition raises_for_status (status_code : Z) : bool :=
  (400 <=? status_code) && (status_code <? 600).

Definition max_retries : nat := 3.

Definition PAGE_SIZE : Z := 100.

Section Network.
(** The market: the outcome of the [n]-th request of the run, asked for
    the page that starts at offset [start]. *)
Context (net : nat -> Z -> http_outcome).

(** [self.session.get(url, params=params, timeout=20)] *)
Definition session_get (start : Z) : io http_outcome :=
  fun w => (net (requests w) start,
            {| requests := S (requests w); slept := slept w |}).

(** The handler [except requests.exceptions.RequestException]. *)
Definition on_request_exception (attempt : nat)
    (continue : io (result (option page_data)))
  : io (result (option page_data)) :=
  if (attempt <? max_retries - 1)%nat
  then (sleep 10 >>> continue)%io
  else ret (Returned None).

(** The loop [for attempt in range(max_retries)], over the attempts
    still to make; falling out of the loop returns [None].  The handler
    [except ValueError] comes second and is never reached. *)
Fixpoint attempts (start : Z) (range : list nat)
  : io (result (option page_data)) :=
  match range with
  | [] => ret (Returned None)
  | attempt :: range' =>
      (r <- session_get start ;;
       match r with
       | RequestException =>
           on_request_exception attempt (attempts start range')
       | Response status_code b =>
           if status_code =? 429 then
             let wait_time := 60 * (Z.of_nat attempt + 1) in
             sleep wait_time >>> attempts start range'
           else if raises_for_status status_code then
             on_request_exception attempt (attempts start range')
           else
             match b with
             | BadJson =>
                 on_request_exception attempt (attempts start range')
             | NotObject => ret (Raised AttributeError)
             | Json data =>
                 if negb (success data) then ret (Returned None)
                 else ret (Returned (Some data))
             end
       end)%io
  end.

(** [get_item_listings_page(item_name, start, count=PAGE_SIZE)] *)
Definition get_item_listings_page (start : Z)
  : io (result (option page_data)) :=
  attempts start (seq 0 max_retries).

Context (db : unicode_db) (self : parser) (item_name : str)
        (desired_gems : option (list str))
        (desired_styles : option (list Z)) (max_price : Q).

(** The loop [while True] of [parse_listings]; [fuel] bounds the number
    of iterations and [None] is returned when it runs out.  An exception
    out of the fetch goes through the loop, which has no handler. *)
Fixpoint parse_loop (fuel : nat) (start : Z) (total_count_seen : option Z)
    (found_items : list item) : io (option (result (list item))) :=
  match fuel with
  | O => ret None
  | S fuel' =>
      (data <- get_item_listings_page start ;;
       match data with
       | Raised e => ret (Some (Raised e))
       | Returned None => ret (Some (Returned found_items))
       | Returned (Some data) =>
           let total := match total_count_seen with
                        | None => default 0 (total_count data)
                        | Some t => t
                        end in
           if bool_decide (total_count_seen = None) && (total =? 0)
           then ret (Some (Returned found_items))
           else
             let listinginfo := default [] (listinginfo data) in
             let assets := default ∅ (assets data) in
             if negb (truthy listinginfo)
             then ret (Some (Returned found_items))
             else
               let page_num := start / PAGE_SIZE + 1 in
               let page_found :=
                 _process_page_listings db self listinginfo assets item_name
                   desired_gems desired_styles max_price page_num in
               let found_items := found_items ++ page_found in
               let start := start + PAGE_SIZE in
               if total <=? start then ret (Some (Returned found_items))
               else sleep 3 >>> parse_loop fuel' start (Some total) found_items
       end)%io
  end.

(** [parse_listings(item_name, desired_gems, desired_styles, max_price)] *)
Definition parse_listings (fuel : nat) : io (option (result (list item))) :=
  parse_loop fuel 0 None [].
End Network.

(* ===================================================================== *)
(** ** The driver's use of the parser ([main.py]) *)
(* ===================================================================== *)

(** The calls [main] makes on the parser once it is built. *)
Inductive method_call :=
| call_parse_listings (item_name : str) (desired_gems : option (list str))
    (desired_styles : option (list Z)) (max_price : Q)
| call_mark_as_notified (listing_id : str).

(** The instance after a call: [parse_listings] and the methods under it
    only read [self.notified_listings]. *)
Definition after_call (self : parser) (c : method_call) : parser :=
  match c with
  | call_parse_listings _ _ _ _ => self
  | call_mark_as_notified listing_id => mark_as_notified self listing_id
  end.

Definition after_calls (self : parser) (cs : list method_call) : parser :=
  fold_left after_call cs self.

(* ===================================================================== *)
(** ** [search_item] and the notifications of the driver *)
(* ===================================================================== *)

Section Search.
Context (net : nat -> Z -> http_outcome).

(** [search_item(item_name, count)]: one request (with ["start": 0]);
    [raise_for_status] comes before the test for the status 429.  Of the
    body only the key ["success"] is read before it is returned. *)
Definition search_item : io (result (option page_data)) :=
  (r <- session_get net 0 ;;
   match r with
   | RequestException => ret (Returned None)
   | Response status_code b =>
       if raises_for_status status_code then ret (Returned None)
       else if status_code =? 429 then sleep 60 >>> ret (Returned None)
       else
         match b with
         | BadJson => ret (Returned None)
         | NotObject => ret (Raised AttributeError)
         | Json data =>
             if negb (success data) then ret (Returned None)
             else ret (Returned (Some data))
         end
   end)%io.
End Search.

(** The loop of [main] over [found_items[:5]]: [delivered k] tells whether
    [send_message] succeeded for the [k]-th item; the state is the parser
    and the number of messages sent, each followed by [time.sleep(1)]. *)
Definition notify_step (delivered : nat -> bool) (st : parser * nat)
    (it : item) : parser * nat :=
  let '(self, k) := st in
  (if delivered k then mark_as_notified self (it_listing_id it) else self,
   S k).

Definition notify_found (delivered : nat -> bool) (self : parser)
    (found_items : list item) : parser * nat :=
  fold_left (notify_step delivered) (take 5 found_items) (self, 0%nat).

(** The identifiers of the items among the first five, counted from the
    [k]-th message, whose message was delivered. *)
Fixpoint delivered_ids (delivered : nat -> bool) (k : nat)
    (items : list item) : list str :=
  match items with
  | [] => []
  | it :: items' =>
      if delivered k
      then it_listing_id it :: delivered_ids delivered (S k) items'
      else delivered_ids delivered (S k) items'
  end.

(* ===================================================================== *)
(** ** Vocabulary of the statements *)
(* ===================================================================== *)

(** An entry given by its text alone. *)
Definition text (s : string) : description :=
  Description None (Some (utf8 s)).

(** An entry of type ["html"]. *)
Definition html (s : string) : description :=
  Description (Some (utf8 "html")) (Some (utf8 s)).

(** The markup-stripped text of an entry. *)
Definition clean_of (d : description) : str := clean_markup (get_value d).

(** *** Strings *)

(** [needle] occurs in [hay]. *)
Definition substring (needle hay : str) : Prop :=
  ∃ pre post, hay = pre ++ needle ++ post.

(** The spellings of the locked marker that [locked_re] accepts: either
    case of the first letter, the rest in lower case. *)
Definition locked_markers : list str :=
  [utf8 "Locked"; utf8 "locked";
   utf8 "Заблокировано"; utf8 "заблокировано";
   utf8 "Заблоковано"; utf8 "заблоковано"].

Definition has_locked_marker (s : str) : Prop :=
  ∃ m, m ∈ locked_markers ∧ substring m s.

(** The locked marker in any letter case: the three words of the claim,
    compared after lower-casing both sides. *)
Definition has_locked_marker_any_case (s : str) : bool :=
  existsb (fun m => str_in (map basic_lower_char m) (map basic_lower_char s))
          [utf8 "Locked"; utf8 "Заблокировано"; utf8 "Заблоковано"].

(** *** Gems *)

(** The entry opens the socket section: its value contains ["Socket"] or
    ["Gem"]. *)
Definition opens_socket_section (d : description) : bool :=
  str_in (utf8 "Socket") (get_value d) || str_in (utf8 "Gem") (get_value d).

(** The entries from the first one that opens the socket section onward. *)
Fixpoint from_socket_section (ds : list description) : list description :=
  match ds with
  | [] => []
  | d :: ds' => if opens_socket_section d then ds else from_socket_section ds'
  end.

(** A non-empty text other than the placeholder. *)
Definition socket_gem (clean : str) : bool :=
  truthy clean && negb (str_eqb clean (utf8 "Empty Socket")).

(** Strategy (b): the texts of the socket section. *)
Definition gems_of_socket_section (ds : list description) : list str :=
  List.filter socket_gem (map clean_of (from_socket_section ds)).

(** Strategy (a) in the words of the claim: the entries whose
    markup-stripped text contains ["Prismatic:"] or ["Ethereal:"]. *)
Definition gems_marked_in_text (ds : list description) : list str :=
  List.filter
    (fun clean => str_in (utf8 "Prismatic:") clean
                  || str_in (utf8 "Ethereal:") clean)
    (map clean_of ds).

(** Gem extraction in the words of the claim. *)
Definition extract_gems_as_stated (ds : list description) : list str :=
  let a := gems_marked_in_text ds in
  if truthy a then a else gems_of_socket_section ds.

(** Strategy (a) as the code has it: the value as received contains
    ["Prismatic:"] or ["Ethereal:"], or the entry is of type ["html"], its
    value contains ["color"] and its text contains ["Gem"], ["Prismatic"]
    or ["Ethereal"]; the text must not be empty. *)
Definition gem_entry (d : description) : bool :=
  truthy (clean_of d)
  && (str_in (utf8 "Prismatic:") (get_value d)
      || str_in (utf8 "Ethereal:") (get_value d)
      || bool_decide (desc_type d = Some (utf8 "html"))
         && str_in (utf8 "color") (get_value d)
         && (str_in (utf8 "Gem") (clean_of d)
             || str_in (utf8 "Prismatic") (clean_of d)
             || str_in (utf8 "Ethereal") (clean_of d))).

(** *** Styles *)

(** The spellings of "unlocked" whose last five letters are in lower
    case. *)
Definition unlocked_spellings : list str :=
  [utf8 "Unlocked"; utf8 "unlocked"; utf8 "UNlocked"; utf8 "uNlocked";
   utf8 "UnLocked"; utf8 "unLocked"; utf8 "UNLocked"; utf8 "uNLocked"].

(** The style patterns in the order the code tries them. *)
Definition style_patterns (db : unicode_db) : list regex :=
  [upgrade_style_re db; style_re db; ru_style_re db].

(** The number of the first pattern, in that order, that matches. *)
Fixpoint first_match (db : unicode_db) (rs : list regex) (s : str)
  : option Z :=
  match rs with
  | [] => None
  | r :: rs' =>
      match re_search r s with
      | Some m => Some (group1_int db m)
      | None => first_match db rs' s
      end
  end.

(** The number a pattern finds in a text. *)
Definition match_number (db : unicode_db) (r : regex) (s : str) : option Z :=
  group1_int db <$> re_search r s.

(** The numbers found in a tag: by the English pattern and by the
    Cyrillic one. *)
Definition found_in_tag (db : unicode_db) (t : tag) : list Z :=
  option_list (match_number db (tag_style_re db) (tag_text t))
  ++ option_list (match_number db (ru_style_re db) (tag_text t)).

(** The numbers found in the tags. *)
Definition tag_numbers (db : unicode_db) (tags : list tag) : list Z :=
  flat_map (found_in_tag db) tags.

(** *** Listings *)

(** Name, gems and styles of a listing: those of its asset description
    when there is one. *)
Definition listing_attrs (db : unicode_db) (self : parser)
    (assets : assets_map) (item_name : str) (l : listing)
  : str * list str * list Z :=
  match find_item_desc self assets l with
  | Some d => describe_item db item_name d
  | None => (item_name, [], [])
  end.

Definition listing_gems (db : unicode_db) (self : parser)
    (assets : assets_map) (item_name : str) (l : listing) : list str :=
  (listing_attrs db self assets item_name l).1.2.

Definition listing_styles (db : unicode_db) (self : parser)
    (assets : assets_map) (item_name : str) (l : listing) : list Z :=
  (listing_attrs db self assets item_name l).2.

(** The item of a listing that was kept. *)
Definition kept (o : outcome) : option item :=
  match o with
  | Keep it => Some it
  | _ => None
  end.

(** The three filters, each without effect when its criterion is empty. *)
Definition price_ok (max_price : Q) (price_cents : Z) : Prop :=
  ¬ (0 < max_price ∧ max_price < usd_of_cents price_cents)%Q.

(** The unit round-off of binary64, [2^-53]. *)
Definition unit_roundoff : Q := 1 # 9007199254740992.

(** The answers that the handler of [RequestException] takes: an
    exception of the request, an error status other than 429, a body that
    is no JSON text. *)
Definition request_error (o : http_outcome) : Prop :=
  match o with
  | RequestException => True
  | Response status_code b =>
      status_code ≠ 429
      ∧ (raises_for_status status_code = true ∨ b = BadJson)
  end.

(** The answers after which the fetch tries again, attempts remaining. *)
Definition retried (o : http_outcome) : Prop :=
  (∃ b, o = Response 429 b) ∨ request_error o.

(** The wait that follows such an answer at the attempt [attempt]
    (counted from 0). *)
Definition wait_after (attempt : nat) (o : http_outcome) : Z :=
  match o with
  | Response 429 _ => 60 * (Z.of_nat attempt + 1)
  | _ => 10
  end.

(** The pause between two pages. *)
Definition page_pause (w : world) : world :=
  {| requests := requests w; slept := slept w ++ [3] |}.

(** From offset [start] in world [w], the fetches of the next pages, each
    followed by the pause, return the bodies [pages] one after the other
    and lead to the world [w']. *)
Fixpoint pages_fetched (net : nat -> Z -> http_outcome) (start : Z)
    (w : world) (pages : list page_data) (w' : world) : Prop :=
  match pages with
  | [] => w' = w
  | data :: pages' =>
      ∃ w1, get_item_listings_page net start w = (Returned (Some data), w1)
            ∧ pages_fetched net (start + PAGE_SIZE) (page_pause w1) pages' w'
  end.

(** The total the scan goes by: that of the first page. *)
Definition first_total (pages : list page_data) : option Z :=
  match pages with
  | [] => None
  | data :: _ => Some (default 0 (total_count data))
  end.

(** The items of consecutive pages, the first having number [page_num]. *)
Fixpoint items_of_pages (db : unicode_db) (self : parser) (item_name : str)
    (desired_gems : option (list str)) (desired_styles : option (list Z))
    (max_price : Q) (page_num : Z) (pages : list page_data) : list item :=
  match pages with
  | [] => []
  | data :: pages' =>
      _process_page_listings db self (default [] (listinginfo data))
        (default ∅ (assets data)) item_name desired_gems desired_styles
        max_price page_num
      ++ items_of_pages db self item_name desired_gems desired_styles
           max_price (page_num + 1) pages'
  end.

Definition gems_ok (db : unicode_db) (desired_gems : option (list str))
    (gems : list str) : Prop :=
  given desired_gems = true →
  ∃ desired g, desired ∈ default [] desired_gems ∧ g ∈ gems
               ∧ substring (lower db desired) (lower db g).

Definition styles_ok (desired_styles : option (list Z)) (styles : list Z)
  : Prop :=
  given desired_styles = true →
  ∃ n, n ∈ default [] desired_styles ∧ n ∈ styles.

(** *** Markup *)

(** What follows the first [>] of a text. *)
Fixpoint after_gt (s : str) : option str :=
  match s with
  | [] => None
  | c :: s' => if is_gt c then Some s' else after_gt s'
  end.

(** What follows a tag that starts the text: [<], one character or more
    other than [>], and [>]. *)
Definition tag_at (s : str) : option str :=
  match s with
  | c :: c1 :: s2 =>
      if (c =? chr "<")%N && negb (is_gt c1) then after_gt s2 else None
  | _ => None
  end.

(** Neither the first nor the last character is white space. *)
Definition trimmed (s : str) : Prop :=
  (∀ c r, s = c :: r → is_space c = false)
  ∧ (∀ p c, s = p ++ [c] → is_space c = false).

(** The text holds a tag somewhere. *)
Definition has_tag (s : str) : Prop :=
  ∃ pre body post,
    s = pre ++ chr "<" :: body ++ chr ">" :: post
    ∧ body ≠ [] ∧ Forall (fun c => is_gt c = false) body.

(** The larger of two optional maxima. *)
Definition option_max (a b : option Z) : option Z :=
  match a, b with
  | Some x, Some y => Some (Z.max x y)
  | Some x, None => Some x
  | None, b => b
  end.

(** The digit values of the table lie between 0 and 9, as the
    interpreter's do. *)
Definition digit_values (db : unicode_db) : Prop :=
  ∀ c v, decimal db c = Some v → 0 ≤ v ≤ 9.

(** The number of pages of a market of [total] listings (one at least). *)
Definition pages_of (total : Z) : nat :=
  Z.to_nat (Z.max 1 ((total + PAGE_SIZE - 1) / PAGE_SIZE)).

(* ===================================================================== *)
(** ** Strings and patterns: basic facts *)
(* ===================================================================== *)

(** *** The model on concrete texts *)

Example utf8_cyrillic : utf8 "Зз" = [1047; 1079]%N.
Proof. reflexivity. Qed.

Example clean_markup_nested :
  clean_markup (utf8 " <span style='color: red'><b>Upgrade Style 6</b></span> ")
  = utf8 "Upgrade Style 6".
Proof. vm_compute. reflexivity. Qed.

(** [<>] is no tag, and a tag ends at the first [>]. *)
Example re_sub_leftmost :
  re_sub_empty tag_re (utf8 "a<b>c<>d<e f='>'>g<h") = utf8 "ac<>d'>g<h".
Proof. vm_compute. reflexivity. Qed.

(** The optional group is given up when the digits do not follow it. *)
Example tag_style_backtracks :
  match_number basic_db (tag_style_re basic_db) (utf8 "Style Upgrade 20")
  = Some 20
  ∧ match_number basic_db (tag_style_re basic_db)
      (utf8 "Style Upgrade x Style 3") = Some 3
  ∧ match_number basic_db (tag_style_re basic_db) (utf8 "Style20") = None.
Proof. vm_compute. done. Qed.

Example first_match_order :
  first_match basic_db (style_patterns basic_db)
    (utf8 "Style 3 then Upgrade Style 6") = Some 6
  ∧ first_match basic_db (style_patterns basic_db)
      (utf8 "Стиль-улучшение  12") = Some 12.
Proof. vm_compute. done. Qed.

(** *** Occurrence and matching *)

Lemma startswith_spec (p s : str) :
  startswith p s = true ↔ ∃ post, s = p ++ post.
Proof.
  revert s. induction p as [|a p IH]; intros s; simpl.
  - split; eauto.
  - destruct s as [|b s]; simpl.
    + split; [discriminate | intros [post H]; discriminate].
    + rewrite andb_true_iff, N.eqb_eq, IH. split.
      * intros [-> [post ->]]. eauto.
      * intros [post H]. injection H as -> ->. eauto.
Qed.

Lemma str_in_spec (needle hay : str) :
  str_in needle hay = true ↔ substring needle hay.
Proof.
  unfold substring. induction hay as [|c hay IH].
  - simpl. rewrite orb_false_r, startswith_spec. split.
    + intros [post H]. exists [], post. done.
    + intros (pre & post & H). symmetry in H.
      apply app_eq_nil in H as [-> H]. apply app_eq_nil in H as [-> ->].
      exists []. done.
  - simpl. rewrite orb_true_iff, startswith_spec, IH. split.
    + intros [[post H] | (pre & post & H)].
      * exists [], post. done.
      * exists (c :: pre), post. by rewrite H.
    + intros (pre & post & H). destruct pre as [|c' pre].
      * left. exists post. done.
      * right. injection H as -> ->. eauto.
Qed.

Lemma substring_app_l (needle pre hay : str) :
  substring needle hay → substring needle (pre ++ hay).
Proof.
  intros (a & b & ->). exists (pre ++ a), b. by rewrite <- app_assoc.
Qed.

Lemma substring_trans (a b c : str) :
  substring a b → substring b c → substring a c.
Proof.
  intros (p1 & q1 & ->) (p2 & q2 & ->).
  exists (p2 ++ p1), (q1 ++ q2). by rewrite <- !app_assoc.
Qed.

(** A literal matches exactly when it is a prefix. *)
Lemma rmatch_lit_str {A} (l s : str) (g : option str)
    (k : str -> option str -> option A) :
  rmatch (lit_str l) s g k =
  if startswith l s then k (drop (length l) s) g else None.
Proof.
  revert s. induction l as [|a l IH]; intros s; simpl.
  - by rewrite drop_0.
  - destruct s as [|b s]; simpl; [done|].
    rewrite (N.eqb_sym a b). destruct (b =? a)%N; simpl; [apply IH | done].
Qed.

(** A pattern "one of two letters, then a literal". *)
Lemma rmatch_cls_lit {A} (p : char -> bool) (l s : str) (g : option str)
    (k : str -> option str -> option A) :
  rmatch (cat [Cls p; lit_str l]) s g k =
  match s with
  | c :: s' =>
      if p c && startswith l s' then k (drop (length l) s') g else None
  | [] => None
  end.
Proof.
  simpl. destruct s as [|c s']; [done|].
  destruct (p c); simpl; [|done]. by rewrite rmatch_lit_str.
Qed.

(** [re.search] finds a match exactly when a match starts somewhere. *)
Lemma re_search_is_Some (r : regex) (s : str) :
  is_Some (re_search r s) ↔
  ∃ pre post, s = pre ++ post ∧ is_Some (re_match r post).
Proof.
  induction s as [|c s IH]; simpl.
  - destruct (re_match r []) eqn:E.
    + split; [|eauto]. intros _. exists [], []. rewrite E. eauto.
    + split; [intros [? ?]; done|].
      intros (pre & post & H & Hm). symmetry in H.
      apply app_eq_nil in H as [-> ->]. by rewrite E in Hm.
  - destruct (re_match r (c :: s)) eqn:E.
    + split; [|eauto]. intros _. exists [], (c :: s). rewrite E. eauto.
    + rewrite IH. split.
      * intros (pre & post & -> & Hm). exists (c :: pre), post. done.
      * intros (pre & post & H & Hm). destruct pre as [|c' pre].
        -- simpl in H. subst post. rewrite E in Hm. by destruct Hm.
        -- injection H as -> ->. eauto.
Qed.

Lemma startswith_cons (a : char) (l s : str) :
  startswith (a :: l) s =
  match s with c :: s' => (a =? c)%N && startswith l s' | [] => false end.
Proof. by destruct s. Qed.

Lemma is_Some_alt {A} (a b : option A) :
  is_Some (match a with Some x => Some x | None => b end) ↔
  is_Some a ∨ is_Some b.
Proof.
  destruct a; split; eauto. intros [[? ?]|?]; done.
Qed.

Lemma locked_markers_eq :
  locked_markers =
  [chr "L" :: utf8 "ocked"; chr "l" :: utf8 "ocked";
   chr "З" :: utf8 "аблокировано"; chr "з" :: utf8 "аблокировано";
   chr "З" :: utf8 "аблоковано"; chr "з" :: utf8 "аблоковано"].
Proof. vm_compute. reflexivity. Qed.

Lemma one_of_two (a b : string) (c : char) :
  existsb (N.eqb c) [chr a; chr b] = (chr a =? c)%N || (chr b =? c)%N.
Proof. simpl. by rewrite orb_false_r, !(N.eqb_sym c). Qed.

Lemma re_match_locked (s : str) :
  is_Some (re_match locked_re s) ↔
  ∃ m, m ∈ locked_markers ∧ startswith m s = true.
Proof.
  unfold re_match, locked_re, one_of, lit. cbn [rmatch].
  rewrite !rmatch_cls_lit, !is_Some_alt, locked_markers_eq.
  change (utf8 "Ll") with [chr "L"; chr "l"].
  change (utf8 "Зз") with [chr "З"; chr "з"].
  setoid_rewrite list_elem_of_In. cbn [In].
  destruct s as [|c s'].
  - split.
    + intros [[? ?]|[[? ?]|[? ?]]]; done.
    + intros (m & Hm & H).
      repeat (destruct Hm as [<-|Hm]; [done|]). done.
  - rewrite !one_of_two.
    generalize (chr "L") (chr "l") (chr "З") (chr "з")
               (utf8 "ocked") (utf8 "аблокировано") (utf8 "аблоковано").
    intros cL cl cZ cz l1 l2 l3. split.
    + intros H.
      assert (Hc : ∀ a b l, is_Some (if ((a =? c)%N || (b =? c)%N) && startswith l s'
                                  then Some (MatchObj (drop (length l) s') None) else None) →
                     startswith (a :: l) (c :: s') = true ∨ startswith (b :: l) (c :: s') = true).
      { intros a b l. rewrite !startswith_cons.
        destruct (a =? c)%N, (b =? c)%N, (startswith l s'); simpl; eauto;
          intros [? ?]; done. }
      destruct H as [H|[H|H]]; apply Hc in H as [H|H]; eauto 10.
    + intros (m & Hm & H).
      assert (Hc : ∀ a b l, startswith (a :: l) (c :: s') = true ∨ startswith (b :: l) (c :: s') = true →
                 is_Some (if ((a =? c)%N || (b =? c)%N) && startswith l s'
                                  then Some (MatchObj (drop (length l) s') None) else None)).
      { intros a b l. rewrite !startswith_cons.
        destruct (a =? c)%N, (b =? c)%N, (startswith l s'); simpl; eauto;
          intros [?|?]; done. }
      destruct Hm as [<-|[<-|[<-|[<-|[<-|[<-|[]]]]]]]; eauto 10.
Qed.

Lemma re_search_locked (s : str) :
  is_Some (re_search locked_re s) ↔ has_locked_marker s.
Proof.
  rewrite re_search_is_Some. unfold has_locked_marker. split.
  - intros (pre & post & -> & H). apply re_match_locked in H as (m & Hm & H).
    exists m. split; [done|]. apply substring_app_l.
    apply startswith_spec in H as [q ->]. by exists [], q.
  - intros (m & Hm & pre & post & ->). exists pre, (m ++ post). split; [done|].
    apply re_match_locked. exists m. split; [done|].
    apply startswith_spec. eauto.
Qed.

(** *** What group 1 holds *)

Lemma star_cls_suffix {A} (p : char -> bool) (s : str)
    (k : str -> option A) (x : A) :
  star_cls p s k = Some x →
  ∃ ds s', s = ds ++ s' ∧ Forall (fun c => p c = true) ds ∧ k s' = Some x.
Proof.
  induction s as [|c s IH]; simpl.
  - intros H. exists [], []. by split_and!.
  - destruct (p c) eqn:Ep.
    + destruct (star_cls p s k) as [y|] eqn:E.
      * intros [= ->]. destruct (IH eq_refl) as (ds & s' & -> & Hds & Hk).
        exists (c :: ds), s'. split_and!; [done| |done]. by constructor.
      * intros H. exists [], (c :: s). by split_and!.
    + intros H. exists [], (c :: s). by split_and!.
Qed.

(** A successful match went through its continuation. *)
Lemma rmatch_continues {A} (r : regex) (s : str) (g : option str)
    (k : str -> option str -> option A) (x : A) :
  rmatch r s g k = Some x → ∃ s' g', k s' g' = Some x.
Proof.
  revert s g k. induction r as [|p|r1 IH1 r2 IH2|r1 IH1 r2 IH2|r IH|p|r IH];
    intros s g k; cbn [rmatch].
  - eauto.
  - destruct s as [|c s]; [done|]. destruct (p c); [eauto|done].
  - intros (s' & g' & H)%IH1. by apply IH2 in H.
  - destruct (rmatch r1 s g k) eqn:E.
    + intros [= ->]. by apply IH1 in E.
    + apply IH2.
  - destruct (rmatch r s g k) eqn:E.
    + intros [= ->]. by apply IH in E.
    + eauto.
  - destruct s as [|c s]; [done|]. destruct (p c); [|done].
    intros (ds & s' & _ & _ & H)%star_cls_suffix. eauto.
  - intros (s' & g' & H)%IH. eauto.
Qed.

(** The group [(p+)] captures a non-empty run of the class. *)
Lemma rmatch_grp_plus {A} (p : char -> bool) (s : str) (g : option str)
    (k : str -> option str -> option A) (x : A) :
  rmatch (Grp (Plus p)) s g k = Some x →
  ∃ ds s', ds ≠ [] ∧ Forall (fun c => p c = true) ds
           ∧ k s' (Some ds) = Some x.
Proof.
  cbn [rmatch]. destruct s as [|c s]; [done|].
  destruct (p c) eqn:Ep; [|done].
  intros (ds & s' & -> & Hds & H)%star_cls_suffix.
  exists (c :: ds), s'. split_and!; [done|by constructor|].
  replace (take (length (c :: ds ++ s') - length s') (c :: ds ++ s'))
    with (c :: ds) in H; [done|].
  replace (length (c :: ds ++ s') - length s')%nat with (length (c :: ds))
    by (simpl; rewrite length_app; lia).
  change (c :: ds ++ s') with ((c :: ds) ++ s').
  by rewrite take_app_length.
Qed.

Lemma re_match_cat_grp_plus (pre : list regex) (p : char -> bool)
    (s : str) (g : option str) (m : re_match_obj) :
  rmatch (cat (pre ++ [Grp (Plus p)])) s g (fun s' g' => Some (MatchObj s' g'))
  = Some m →
  ∃ ds, m_group1 m = Some ds ∧ ds ≠ [] ∧ Forall (fun c => p c = true) ds.
Proof.
  revert s g. induction pre as [|r pre IH]; intros s g.
  - intros H.
    change (rmatch (Grp (Plus p)) s g (fun s' g' => Some (MatchObj s' g'))
            = Some m) in H.
    apply rmatch_grp_plus in H as (ds & s' & Hne & Hds & [= <-]). eauto.
  - intros H.
    change (rmatch r s g
              (fun s' g' => rmatch (cat (pre ++ [Grp (Plus p)])) s' g'
                              (fun s'' g'' => Some (MatchObj s'' g'')))
            = Some m) in H.
    apply rmatch_continues in H as (s' & g' & H). by apply IH in H.
Qed.

Lemma re_search_Some (r : regex) (s : str) (m : re_match_obj) :
  re_search r s = Some m → ∃ post, re_match r post = Some m.
Proof.
  induction s as [|c s IH]; simpl.
  - destruct (re_match r []) eqn:E; [|done]. intros [= <-]. eauto.
  - destruct (re_match r (c :: s)) eqn:E; [|done]. intros [= <-]. eauto.
Qed.

(** Group 1 of a match of a style pattern is a non-empty string of decimal
    digits: what [int] is applied to. *)
Lemma style_capture_digits (db : unicode_db) (r : regex) (s : str)
    (m : re_match_obj) :
  r ∈ [upgrade_style_re db; style_re db; ru_style_re db; tag_style_re db] →
  re_search r s = Some m →
  ∃ ds, m_group1 m = Some ds ∧ ds ≠ []
        ∧ Forall (fun c => is_Some (decimal db c)) ds.
Proof.
  intros Hr (post & H)%re_search_Some. unfold re_match in H.
  assert (∃ pre, r = cat (pre ++ [Grp (Plus (is_digit db))])) as [pre ->].
  { apply list_elem_of_In in Hr. cbn [In] in Hr.
    destruct Hr as [<-|[<-|[<-|[<-|[]]]]].
    - by exists [one_of "Uu"; lit "pgrade"; Plus is_space; one_of "Ss";
                 lit "tyle"; Plus is_space].
    - by exists [one_of "Ss"; lit "tyle"; Plus is_space].
    - by exists [one_of "Сс"; lit "тиль"; one_of "- "; lit "улучшение";
                 Plus is_space].
    - by exists [one_of "Ss"; lit "tyle";
                 Opt (cat [Plus is_space; one_of "Uu"; lit "pgrade"]);
                 Plus is_space]. }
  apply re_match_cat_grp_plus in H as (ds & Hg & Hne & Hds).
  exists ds. split_and!; [done..|].
  eapply Forall_impl; [exact Hds|]. intros c Hc. unfold is_digit in Hc.
  by destruct (decimal db c).
Qed.

(* ===================================================================== *)
(** ** Unlocked styles *)
(* ===================================================================== *)

Section StyleFacts.
Context (db : unicode_db).

Lemma styles_step_locked (styles : list Z) (d : description) :
  has_locked_marker (clean_of d) → styles_step db styles d = styles.
Proof.
  intros H. apply re_search_locked in H as [m Hm].
  unfold styles_step. fold (clean_of d). by rewrite Hm.
Qed.

Lemma styles_step_unlocked (styles : list Z) (d : description) :
  ¬ has_locked_marker (clean_of d) →
  styles_step db styles d =
  match first_match db (style_patterns db) (clean_of d) with
  | Some n => append_new styles n
  | None => styles
  end.
Proof.
  intros H. unfold styles_step. fold (clean_of d).
  destruct (re_search locked_re (clean_of d)) eqn:E.
  - destruct H. apply re_search_locked. eauto.
  - unfold style_patterns. cbn [first_match].
    repeat (destruct (re_search _ (clean_of d)); [done|]). done.
Qed.

Lemma has_locked_marker_dec (s : str) :
  has_locked_marker s ∨ ¬ has_locked_marker s.
Proof.
  destruct (re_search locked_re s) eqn:E.
  - left. apply re_search_locked. eauto.
  - right. intros H. apply re_search_locked in H as [? H]. congruence.
Qed.

Lemma elem_of_append_new (styles : list Z) (n m : Z) :
  m ∈ append_new styles n ↔ m ∈ styles ∨ m = n.
Proof.
  unfold append_new. case_bool_decide.
  - split; [eauto|]. intros [?| ->]; done.
  - rewrite elem_of_app, list_elem_of_singleton. done.
Qed.

Lemma NoDup_append_new (styles : list Z) (n : Z) :
  NoDup styles → NoDup (append_new styles n).
Proof.
  intros H. unfold append_new. case_bool_decide; [done|].
  apply NoDup_app. split_and!; [done| |apply NoDup_singleton].
  intros x Hx ->%list_elem_of_singleton. done.
Qed.

(** What the loop appends: the numbers of the entries that are not
    locked, each by its first matching pattern. *)
Lemma elem_of_styles_loop (ds : list description) (styles : list Z) (n : Z) :
  n ∈ fold_left (styles_step db) ds styles ↔
  n ∈ styles ∨
  ∃ d, d ∈ ds ∧ ¬ has_locked_marker (clean_of d)
       ∧ first_match db (style_patterns db) (clean_of d) = Some n.
Proof.
  revert styles. induction ds as [|d ds IH]; intros styles; cbn [fold_left].
  - split; [eauto|]. intros [?|(d & Hd & _)]; [done|].
    by apply elem_of_nil in Hd.
  - rewrite IH. setoid_rewrite elem_of_cons.
    destruct (has_locked_marker_dec (clean_of d)) as [Hl|Hl].
    + rewrite styles_step_locked by done. split.
      * intros [?|(d' & ? & ? & ?)]; eauto 10.
      * intros [?|(d' & [->|?] & ? & ?)]; eauto 10. done.
    + rewrite styles_step_unlocked by done.
      destruct (first_match db (style_patterns db) (clean_of d))
        as [m|] eqn:E.
      * rewrite elem_of_append_new. split.
        -- intros [[?| ->]|(d' & ? & ? & ?)]; eauto 10.
        -- intros [?|(d' & [->|?] & ? & ?)]; eauto 10.
           left. right. congruence.
      * split.
        -- intros [?|(d' & ? & ? & ?)]; eauto 10.
        -- intros [?|(d' & [->|?] & ? & ?)]; eauto 10. congruence.
Qed.

Lemma NoDup_styles_loop (ds : list description) (styles : list Z) :
  NoDup styles → NoDup (fold_left (styles_step db) ds styles).
Proof.
  revert styles. induction ds as [|d ds IH]; intros styles H; simpl; [done|].
  apply IH. unfold styles_step.
  repeat (destruct (re_search _ _); try done; try by apply NoDup_append_new).
Qed.

Lemma styles_loop_skip (pre post : list description) (d : description)
    (styles : list Z) :
  has_locked_marker (clean_of d) →
  fold_left (styles_step db) (pre ++ d :: post) styles =
  fold_left (styles_step db) (pre ++ post) styles.
Proof.
  intros H. rewrite !fold_left_app. simpl. by rewrite styles_step_locked.
Qed.
End StyleFacts.

Lemma unlocked_has_locked_marker (m s : str) :
  m ∈ unlocked_spellings → substring m s → has_locked_marker s.
Proof.
  intros Hm Hs.
  assert (∃ k, k ∈ locked_markers ∧ substring k m) as (k & Hk & Hkm).
  { unfold unlocked_spellings in Hm. apply list_elem_of_In in Hm. cbn [In] in Hm.
    destruct Hm as [<-|[<-|[<-|[<-|[<-|[<-|[<-|[<-|[]]]]]]]]].
    all: first
      [ exists (utf8 "locked"); split;
        [ vm_compute; repeat constructor
        | apply str_in_spec; vm_compute; reflexivity ]
      | exists (utf8 "Locked"); split;
        [ vm_compute; repeat constructor
        | apply str_in_spec; vm_compute; reflexivity ] ]. }
  exists k. split; [done|]. by eapply substring_trans.
Qed.

Lemma strongly_sorted_lt (l : list Z) :
  StronglySorted Z.le l → NoDup l → StronglySorted Z.lt l.
Proof.
  induction 1 as [|x l Hs IH Hx]; intros Hn; [constructor|].
  apply NoDup_cons in Hn as [Hnx Hn]. constructor; [auto|].
  apply Forall_forall. intros y Hy.
  rewrite Forall_forall in Hx. specialize (Hx y Hy).
  assert (x ≠ y) by (intros ->; done). lia.
Qed.

(* ===================================================================== *)
(** ** Gems *)
(* ===================================================================== *)

Lemma gems_step_spec (gems : list str) (d : description) :
  gems_step gems d = gems ++ (if gem_entry d then [clean_of d] else []).
Proof.
  unfold gems_step, gem_entry. fold (clean_of d).
  destruct (str_in (utf8 "Prismatic:") (get_value d)
            || str_in (utf8 "Ethereal:") (get_value d)); simpl.
  - rewrite andb_true_r. destruct (truthy (clean_of d)); [done|].
    by rewrite app_nil_r.
  - destruct (bool_decide _ && str_in (utf8 "color") (get_value d)); simpl.
    + destruct (truthy (clean_of d) && _); [done|]. by rewrite app_nil_r.
    + rewrite andb_false_r. by rewrite app_nil_r.
Qed.

Lemma gems_loop_spec (ds : list description) (gems : list str) :
  fold_left gems_step ds gems = gems ++ map clean_of (List.filter gem_entry ds).
Proof.
  revert gems. induction ds as [|d ds IH]; intros gems; simpl.
  - by rewrite app_nil_r.
  - rewrite IH, gems_step_spec. destruct (gem_entry d); simpl.
    + by rewrite <- app_assoc.
    + by rewrite app_nil_r.
Qed.

Lemma truthy_not_nil {T} (l : list T) : truthy l = true → l ≠ [].
Proof. by destruct l. Qed.

Lemma socket_step_spec (b : bool) (gems : list str) (d : description) :
  socket_step (b, gems) d =
  let b' := b || opens_socket_section d in
  (b', gems ++ (if b' && socket_gem (clean_of d) then [clean_of d] else [])).
Proof.
  unfold socket_step, opens_socket_section, socket_gem. fold (clean_of d).
  cbn [existsb]. rewrite orb_false_r.
  destruct (str_in (utf8 "Socket") (get_value d)
            || str_in (utf8 "Gem") (get_value d)); simpl.
  - rewrite orb_true_r. simpl.
    destruct (truthy (clean_of d)) eqn:E; simpl; [|by rewrite app_nil_r].
    assert (str_eqb (clean_of d) [] = false) as ->.
    { unfold str_eqb. apply bool_decide_eq_false. by apply truthy_not_nil. }
    simpl. destruct (str_eqb _ _); simpl; [|done]. by rewrite app_nil_r.
  - rewrite orb_false_r. destruct b; simpl; [|by rewrite app_nil_r].
    destruct (truthy (clean_of d)) eqn:E; simpl; [|by rewrite app_nil_r].
    assert (str_eqb (clean_of d) [] = false) as ->.
    { unfold str_eqb. apply bool_decide_eq_false. by apply truthy_not_nil. }
    simpl. destruct (str_eqb _ _); simpl; [|done]. by rewrite app_nil_r.
Qed.

Lemma socket_loop_spec (ds : list description) (b : bool) (gems : list str) :
  snd (fold_left socket_step ds (b, gems)) =
  gems ++ List.filter socket_gem
            (map clean_of (if b then ds else from_socket_section ds)).
Proof.
  revert b gems. induction ds as [|d ds IH]; intros b gems.
  - simpl. destruct b; by rewrite app_nil_r.
  - cbn [fold_left]. rewrite socket_step_spec. cbv zeta. rewrite IH.
    destruct b; simpl.
    + destruct (socket_gem (clean_of d)); simpl; by rewrite <- app_assoc.
    + destruct (opens_socket_section d); simpl.
      * destruct (socket_gem (clean_of d)); simpl; by rewrite <- app_assoc.
      * by rewrite app_nil_r.
Qed.

Lemma extract_gems_from_descriptions_spec (ds : list description) :
  extract_gems_from_descriptions ds = map clean_of (List.filter gem_entry ds).
Proof. unfold extract_gems_from_descriptions. by rewrite gems_loop_spec. Qed.

Lemma extract_socket_gems_spec (ds : list description) :
  extract_socket_gems ds = gems_of_socket_section ds.
Proof. unfold extract_socket_gems. by rewrite socket_loop_spec. Qed.

Lemma from_socket_section_subseteq (ds : list description) :
  from_socket_section ds ⊆ ds.
Proof.
  induction ds as [|d ds IH]; simpl; [done|].
  destruct (opens_socket_section d); [done|]. by apply list_subseteq_cons.
Qed.

(* ===================================================================== *)
(** ** Styles from tags *)
(* ===================================================================== *)

Lemma if_ltb_max (a b : Z) : (if a <? b then b else a) = Z.max a b.
Proof. destruct (Z.ltb_spec a b); lia. Qed.

Lemma max_style_step_spec (db : unicode_db) (max_style : Z) (t : tag) :
  max_style_step db max_style t = fold_left Z.max (found_in_tag db t) max_style.
Proof.
  unfold max_style_step, found_in_tag, match_number.
  rewrite fold_left_app.
  destruct (re_search (tag_style_re db) (tag_text t)) as [m1|];
    destruct (re_search (ru_style_re db) (tag_text t)) as [m2|]; simpl;
    by rewrite ?if_ltb_max.
Qed.

Lemma max_style_loop_spec (db : unicode_db) (tags : list tag) (max_style : Z) :
  fold_left (max_style_step db) tags max_style
  = fold_left Z.max (tag_numbers db tags) max_style.
Proof.
  revert max_style. induction tags as [|t tags IH]; intros m; simpl; [done|].
  by rewrite fold_left_app, IH, max_style_step_spec.
Qed.

(** The running maximum is the start value or one of the numbers, and
    bounds them all. *)
Lemma fold_max_spec (ns : list Z) (m : Z) :
  let r := fold_left Z.max ns m in
  (r = m ∨ r ∈ ns) ∧ m ≤ r ∧ ∀ n, n ∈ ns → n ≤ r.
Proof.
  revert m. induction ns as [|a ns IH]; intros m; simpl.
  - split_and!; [by left|lia|]. intros n Hn. by apply elem_of_nil in Hn.
  - destruct (IH (Z.max m a)) as (H1 & H2 & H3). split_and!.
    + destruct H1 as [H1|H1].
      * rewrite H1. destruct (Z.max_spec m a) as [[? ->]|[? ->]].
        -- right. left.
        -- by left.
      * right. by right.
    + lia.
    + intros n [->|Hn]%elem_of_cons; [lia|auto].
Qed.

Lemma get_max_style_from_tags_Some (db : unicode_db) (tags : list tag) (K : Z) :
  get_max_style_from_tags db tags = Some K ↔
  0 < K ∧ K ∈ tag_numbers db tags ∧ ∀ n, n ∈ tag_numbers db tags → n ≤ K.
Proof.
  unfold get_max_style_from_tags. rewrite max_style_loop_spec.
  destruct (fold_max_spec (tag_numbers db tags) 0) as (H1 & H2 & H3).
  cbv zeta in *. set (r := fold_left Z.max (tag_numbers db tags) 0) in *.
  destruct (Z.ltb_spec 0 r) as [Hr|Hr].
  - split.
    + intros [= <-]. split_and!; [done| |done]. destruct H1 as [H1|H1]; [lia|done].
    + intros (HK & Hin & Hmax). f_equal.
      specialize (H3 K Hin). destruct H1 as [H1|H1]; [lia|].
      specialize (Hmax r H1). lia.
  - split; [done|]. intros (HK & Hin & Hmax). specialize (H3 K Hin). lia.
Qed.

Lemma get_max_style_from_tags_None (db : unicode_db) (tags : list tag) :
  get_max_style_from_tags db tags = None ↔
  ∀ n, n ∈ tag_numbers db tags → n ≤ 0.
Proof.
  unfold get_max_style_from_tags. rewrite max_style_loop_spec.
  destruct (fold_max_spec (tag_numbers db tags) 0) as (H1 & H2 & H3).
  cbv zeta in *. set (r := fold_left Z.max (tag_numbers db tags) 0) in *.
  destruct (Z.ltb_spec 0 r) as [Hr|Hr].
  - split; [done|]. intros H. destruct H1 as [H1|H1]; [lia|].
    specialize (H r H1). lia.
  - split; [|done]. intros _ n Hn. specialize (H3 n Hn). lia.
Qed.

(* ===================================================================== *)
(** ** One listing *)
(* ===================================================================== *)

Section ListingFacts.
Context (db : unicode_db) (self : parser) (assets : assets_map)
        (item_name : str) (desired_gems : option (list str))
        (desired_styles : option (list Z)) (max_price : Q) (page_num : Z).

(** The empty dictionary is described as a missing description is. *)
Lemma describe_item_falsy (d : asset_description) :
  truthy_desc d = false → describe_item db item_name d = (item_name, [], []).
Proof.
  by destruct d as [[n|] [ds|] [ts|] [|]].
Qed.

(** What becomes of a listing, stage by stage. *)
Lemma process_listing_outcome (listing_id : str) (l : listing) :
  snd (process_listing db self assets item_name desired_gems desired_styles
                       max_price page_num (listing_id, l)) =
  if bool_decide (listing_id ∈ notified_listings self) then SkipNotified
  else if over_max_price max_price (usd_of_cents (price_cents_of l))
  then RejectPrice
  else
    let '(actual_name, gems, styles) :=
      listing_attrs db self assets item_name l in
    if given desired_gems
       && negb (gems_match db (default [] desired_gems) gems)
    then RejectGems
    else if given desired_styles
            && negb (has_desired_style (default [] desired_styles) styles)
    then RejectStyles
    else Keep {| it_name := actual_name;
                 it_price_value := usd_of_cents (price_cents_of l);
                 it_listing_id := listing_id;
                 it_gems := gems;
                 it_styles := styles;
                 it_page := page_num |}.
Proof.
  unfold process_listing, listing_attrs.
  case_bool_decide; [done|].
  destruct (over_max_price _ _); [done|].
  destruct (find_item_desc self assets l) as [d|].
  - destruct (truthy_desc d) eqn:Et; [|rewrite (describe_item_falsy d Et)].
    + destruct (describe_item db item_name d) as [[n g] s].
      destruct (given desired_gems && _); [done|].
      by destruct (given desired_styles && _).
    + destruct (given desired_gems && _); [done|].
      by destruct (given desired_styles && _).
  - destruct (given desired_gems && _); [done|].
    by destruct (given desired_styles && _).
Qed.

(** The work recorded for a listing concerns that listing, and there is
    none for a notified one. *)
Lemma process_listing_work (listing_id : str) (l : listing) :
  let work := fst (process_listing db self assets item_name desired_gems
                     desired_styles max_price page_num (listing_id, l)) in
  (∀ e, e ∈ work → event_id e = listing_id)
  ∧ (listing_id ∈ notified_listings self → work = []).
Proof.
  unfold process_listing. case_bool_decide as Hn.
  - simpl. split; [|done]. intros e He. by apply elem_of_nil in He.
  - destruct (over_max_price _ _).
    + simpl. split; [|done]. by intros e ->%list_elem_of_singleton.
    + destruct (find_item_desc self assets l) as [d|];
        [destruct (truthy_desc d)|].
      * destruct (describe_item db item_name d) as [[n g] s].
        destruct (given desired_gems && _);
          [|destruct (given desired_styles && _)]; simpl; (split; [|done]);
          intros e He; repeat (apply elem_of_cons in He as [->|He]; [done|]);
          by apply elem_of_nil in He.
      * destruct (given desired_gems && _);
          [|destruct (given desired_styles && _)]; simpl; (split; [|done]);
          intros e He; repeat (apply elem_of_cons in He as [->|He]; [done|]);
          by apply elem_of_nil in He.
      * destruct (given desired_gems && _);
          [|destruct (given desired_styles && _)]; simpl; (split; [|done]);
          intros e He; repeat (apply elem_of_cons in He as [->|He]; [done|]);
          by apply elem_of_nil in He.
Qed.
End ListingFacts.

Lemma describe_item_styles_from_tags (db : unicode_db) (item_name : str)
    (d : asset_description) (K : Z) :
  extract_unlocked_styles db (default [] (descriptions d)) = [] →
  get_max_style_from_tags db (default [] (tags d)) = Some K →
  (describe_item db item_name d).2 = seqZ 1 K.
Proof.
  intros He Hm. unfold describe_item. cbv zeta. rewrite He, Hm. simpl.
  apply get_max_style_from_tags_Some in Hm as (HK & _).
  rewrite bool_decide_eq_true_2 by lia. done.
Qed.

(* ===================================================================== *)
(** ** Fetching a page *)
(* ===================================================================== *)

Section FetchFacts.
Context (net : nat -> Z -> http_outcome).

(** One turn of the retry loop. *)
Lemma attempts_cons (start : Z) (attempt : nat) (range : list nat) (w : world) :
  attempts net start (attempt :: range) w =
  let w1 := {| requests := S (requests w); slept := slept w |} in
  match net (requests w) start with
  | RequestException =>
      on_request_exception attempt (attempts net start range) w1
  | Response status_code b =>
      if status_code =? 429 then
        attempts net start range
          {| requests := S (requests w);
             slept := slept w ++ [60 * (Z.of_nat attempt + 1)] |}
      else if raises_for_status status_code then
        on_request_exception attempt (attempts net start range) w1
      else
        match b with
        | BadJson =>
            on_request_exception attempt (attempts net start range) w1
        | NotObject => (Raised AttributeError, w1)
        | Json data =>
            if negb (success data) then (Returned None, w1)
            else (Returned (Some data), w1)
        end
  end.
Proof.
  cbn [attempts]. unfold bind, session_get, ret, sleep. cbv zeta.
  destruct (net (requests w) start) as [|status_code b]; [done|].
  destruct (status_code =? 429); [done|].
  destruct (raises_for_status status_code); [done|].
  destruct b as [| |data]; [done..|]. by destruct (negb (success data)).
Qed.

Lemma on_request_exception_retry (attempt : nat)
    (continue : io (result (option page_data))) (w : world) :
  (attempt < 2)%nat →
  on_request_exception attempt continue w =
  continue {| requests := requests w; slept := slept w ++ [10] |}.
Proof.
  intros H. unfold on_request_exception, max_retries, bind, sleep.
  destruct (Nat.ltb_spec attempt (3 - 1)); [done|lia].
Qed.

Lemma on_request_exception_last (attempt : nat)
    (continue : io (result (option page_data))) (w : world) :
  (2 ≤ attempt)%nat →
  on_request_exception attempt continue w = (Returned None, w).
Proof.
  intros H. unfold on_request_exception, max_retries, ret.
  destruct (Nat.ltb_spec attempt (3 - 1)); [lia|done].
Qed.

(** The loop sends at most one request per attempt and never un-sleeps. *)
Lemma attempts_requests (start : Z) (range : list nat) (w : world) :
  let w' := (attempts net start range w).2 in
  (requests w ≤ requests w' ≤ requests w + length range)%nat
  ∧ slept w `prefix_of` slept w'.
Proof.
  revert w. induction range as [|attempt range IH]; intros w.
  - simpl. split; [lia|done].
  - rewrite attempts_cons. cbv zeta.
    assert (Hexc : ∀ w1, w1 = {| requests := S (requests w); slept := slept w |} →
              let w' := (on_request_exception attempt (attempts net start range) w1).2 in
              (requests w ≤ requests w' ≤ requests w + length (attempt :: range))%nat
              ∧ slept w `prefix_of` slept w').
    { intros w1 ->. unfold on_request_exception, bind, sleep, ret.
      destruct (attempt <? max_retries - 1)%nat; simpl.
      - match goal with |- context [attempts net start range ?w0] =>
          destruct (IH w0) as [H1 H2] end.
        simpl in *. split; [lia|].
        etrans; [|exact H2]. by apply prefix_app_r.
      - split; [lia|done]. }
    destruct (net (requests w) start) as [|status_code b]; [by apply Hexc|].
    destruct (status_code =? 429).
    + match goal with |- context [attempts net start range ?w0] =>
        destruct (IH w0) as [H1 H2] end.
      simpl in *. split; [lia|].
      etrans; [|exact H2]. by apply prefix_app_r.
    + destruct (raises_for_status status_code); [by apply Hexc|].
      destruct b as [| |data]; [by apply Hexc| |destruct (negb (success data))];
        simpl; (split; [lia|done]).
Qed.

(** An answer taken by the handler of [RequestException]. *)
Lemma attempts_request_error (start : Z) (attempt : nat) (range : list nat)
    (w : world) :
  request_error (net (requests w) start) →
  attempts net start (attempt :: range) w =
  on_request_exception attempt (attempts net start range)
    {| requests := S (requests w); slept := slept w |}.
Proof.
  intros H. rewrite attempts_cons. cbv zeta.
  destruct (net (requests w) start) as [|status_code b]; [done|].
  destruct H as [Hs Hb]. destruct (Z.eqb_spec status_code 429); [done|].
  destruct (raises_for_status status_code); [done|].
  by destruct Hb as [?| ->].
Qed.

(** An answer after which the loop goes on. *)
Lemma attempts_retried (start : Z) (attempt : nat) (range : list nat)
    (w : world) :
  retried (net (requests w) start) →
  (attempt < 2)%nat →
  attempts net start (attempt :: range) w =
  attempts net start range
    {| requests := S (requests w);
       slept := slept w ++ [wait_after attempt (net (requests w) start)] |}.
Proof.
  intros [[b H]|H] Ha.
  - rewrite attempts_cons, H. done.
  - rewrite attempts_request_error by done.
    rewrite on_request_exception_retry by done. cbn [requests slept].
    destruct (net (requests w) start) as [|status_code b]; [done|].
    destruct H as [Hs _]. cbn [wait_after].
    destruct status_code as [|q|q]; try done.
    repeat (destruct q as [q|q|]; try done).
Qed.

(** Three answers in a row taken by the handler of [RequestException]. *)
Lemma get_item_listings_page_request_errors (start : Z) (w : world) :
  (∀ i, (i < 3)%nat → request_error (net (requests w + i)%nat start)) →
  get_item_listings_page net start w =
  (Returned None,
   {| requests := requests w + 3; slept := slept w ++ [10; 10] |}).
Proof.
  intros H. unfold get_item_listings_page, max_retries. cbn [seq].
  pose proof (H 0%nat ltac:(lia)) as H0.
  pose proof (H 1%nat ltac:(lia)) as H1.
  pose proof (H 2%nat ltac:(lia)) as H2.
  rewrite Nat.add_0_r in H0.
  rewrite attempts_request_error by done.
  rewrite on_request_exception_retry by lia.
  rewrite attempts_request_error
    by (cbn [requests]; by replace (S (requests w)) with (requests w + 1)%nat
          by lia).
  rewrite on_request_exception_retry by lia.
  rewrite attempts_request_error
    by (cbn [requests];
        by replace (S (S (requests w))) with (requests w + 2)%nat by lia).
  rewrite on_request_exception_last by lia.
  cbn [requests slept]. rewrite <- !app_assoc. f_equal. f_equal. lia.
Qed.

(** The loop raises only on a body that is no object. *)
Lemma attempts_raised (start : Z) (range : list nat) (w : world) (e : exn) :
  fst (attempts net start range w) = Raised e →
  ∃ i status_code,
    (i < length range)%nat
    ∧ net (requests w + i)%nat start = Response status_code NotObject.
Proof.
  revert w. induction range as [|attempt range IH]; intros w; [done|].
  assert (Hnext : ∀ w1,
             requests w1 = S (requests w) →
             fst (attempts net start range w1) = Raised e →
             ∃ i status_code,
               (i < length (attempt :: range))%nat
               ∧ net (requests w + i)%nat start
                 = Response status_code NotObject).
  { intros w1 Hw1 (i & s & Hi & Hnet)%IH. exists (S i), s.
    split; [simpl; lia|]. rewrite <- Hnet. f_equal. lia. }
  assert (Hexc : fst (on_request_exception attempt (attempts net start range)
                        {| requests := S (requests w); slept := slept w |})
                 = Raised e →
                 ∃ i status_code,
                   (i < length (attempt :: range))%nat
                   ∧ net (requests w + i)%nat start
                     = Response status_code NotObject).
  { unfold on_request_exception, bind, sleep, ret.
    destruct (attempt <? max_retries - 1)%nat; [|done].
    by apply Hnext. }
  rewrite attempts_cons. cbv zeta.
  destruct (net (requests w) start) as [|status_code b] eqn:E; [done|].
  destruct (status_code =? 429); [by apply Hnext|].
  destruct (raises_for_status status_code); [done|].
  destruct b as [| |data]; [done| |by destruct (negb (success data))].
  intros _. exists 0%nat, status_code. split; [simpl; lia|].
  by rewrite Nat.add_0_r.
Qed.
End FetchFacts.

(* ===================================================================== *)
(** ** The filters *)
(* ===================================================================== *)

Lemma Qgtb_spec (a b : Q) : Qgtb a b = true ↔ (b < a)%Q.
Proof.
  unfold Qgtb. rewrite negb_true_iff. split.
  - intros H. apply Qnot_le_lt. intros Hle.
    apply Qle_bool_iff in Hle. congruence.
  - intros H. destruct (Qle_bool a b) eqn:E; [|done].
    apply Qle_bool_iff in E. by apply Qlt_not_le in H.
Qed.

Lemma over_max_price_spec (max_price price_usd : Q) :
  over_max_price max_price price_usd = true ↔
  (0 < max_price ∧ max_price < price_usd)%Q.
Proof.
  unfold over_max_price. by rewrite andb_true_iff, !Qgtb_spec.
Qed.

Lemma over_max_price_false (max_price : Q) (price_cents : Z) :
  over_max_price max_price (usd_of_cents price_cents) = false ↔
  price_ok max_price price_cents.
Proof.
  unfold price_ok. rewrite <- over_max_price_spec.
  destruct (over_max_price _ _); split; try done.
Qed.

(* ===================================================================== *)
(** ** Rounding to binary64 *)
(* ===================================================================== *)

Lemma round_half_even_spec (n d : Z) :
  0 < d -> 2 * Z.abs (round_half_even n d * d - n) <= d.
Proof.
  intros Hd. unfold round_half_even.
  pose proof (Z.div_mod n d ltac:(lia)) as E.
  pose proof (Z.mod_pos_bound n d Hd) as Hr.
  set (q := n / d) in *. set (r := n mod d) in *.
  destruct (Z.compare_spec (2 * r) d) as [H|H|H];
    [destruct (Z.even q)| |]; lia.
Qed.

Lemma round_pos_scale (n d : Z) :
  0 < n -> 0 < d ->
  let a := Z.log2 n in
  let b := Z.log2 d in
  let p := if n * 2 ^ b <? d * 2 ^ a then b + 53 else b + 52 in
  0 <= a /\ 0 <= b /\ 0 < 2 ^ a /\ 0 < 2 ^ p
  /\ 2 ^ 52 * (d * 2 ^ a) <= n * 2 ^ p.
Proof.
  intros Hn Hd a b p.
  pose proof (Z.log2_nonneg n) as Ha. pose proof (Z.log2_nonneg d) as Hb.
  fold a in Ha. fold b in Hb.
  destruct (Z.log2_spec n Hn) as [Ha1 Ha2].
  destruct (Z.log2_spec d Hd) as [Hb1 Hb2].
  fold a in Ha1, Ha2. fold b in Hb1, Hb2.
  rewrite Z.pow_succ_r in Ha2, Hb2 by done.
  assert (0 < 2 ^ a) by (apply Z.pow_pos_nonneg; lia).
  assert (0 < 2 ^ b) by (apply Z.pow_pos_nonneg; lia).
  split; [done|]. split; [done|]. split; [done|].
  subst p. destruct (Z.ltb_spec (n * 2 ^ b) (d * 2 ^ a)) as [Hc|Hc].
  - rewrite Z.pow_add_r by lia. split; [lia|].
    change (2 ^ 53) with (2 ^ 52 * 2).
    assert (d * 2 ^ a <= 2 * (n * 2 ^ b)); [|lia].
    transitivity (2 * 2 ^ b * 2 ^ a); [nia|nia].
  - rewrite Z.pow_add_r by lia. split; [lia|]. nia.
Qed.

Lemma round_pos_bounds (n d : positive) :
  let x := Zpos n # d in
  (x * (1 - unit_roundoff) <= round_pos (Zpos n) (Zpos d))%Q
  ∧ (round_pos (Zpos n) (Zpos d) <= x * (1 + unit_roundoff))%Q.
Proof.
  cbv zeta.
  destruct (round_pos_scale (Zpos n) (Zpos d) ltac:(done) ltac:(done))
    as (Ha & Hb & HA & HP & Hs).
  cbv zeta in Hs, HP. unfold round_pos.
  set (a := Z.log2 (Zpos n)) in *. set (b := Z.log2 (Zpos d)) in *.
  set (p := if Z.pos n * 2 ^ b <? Z.pos d * 2 ^ a then b + 53 else b + 52)
    in *.
  pose proof (round_half_even_spec (Z.pos n * 2 ^ p) (Z.pos d * 2 ^ a)
                ltac:(lia)) as Hm.
  set (m := round_half_even (Z.pos n * 2 ^ p) (Z.pos d * 2 ^ a)) in *.
  unfold Qle, unit_roundoff, Qmult, Qminus, Qplus, Qopp.
  cbn [Qnum Qden]. rewrite Z2Pos.id by done.
  rewrite !Pos2Z.inj_mul.
  change (2 ^ 52) with 4503599627370496 in Hs.
  set (P := 2 ^ p) in *. set (A := 2 ^ a) in *.
  split; lia.
Qed.

Lemma round64_proper (x y : Q) : x == y → round64 x = round64 y.
Proof. intros H. unfold round64. by rewrite (Qred_complete x y H). Qed.

Lemma round_pos_pos (n d : positive) : (0 < round_pos (Zpos n) (Zpos d))%Q.
Proof.
  destruct (round_pos_bounds n d) as [H _]. cbv zeta in H.
  eapply Qlt_le_trans; [|exact H].
  apply Qmult_lt_0_compat; done.
Qed.

Lemma round64_pos_bounds (x : Q) :
  (0 < x)%Q →
  (x * (1 - unit_roundoff) <= round64 x)%Q
  ∧ (round64 x <= x * (1 + unit_roundoff))%Q.
Proof.
  intros Hx. unfold round64. cbv zeta.
  pose proof (Qred_correct x) as E.
  destruct (Qred x) as [[|n|n] d]; cbn [Qnum Qden].
  - exfalso. revert E Hx. unfold Qeq, Qlt. simpl. lia.
  - pose proof (round_pos_bounds n d) as [H1 H2]. cbv zeta in H1, H2.
    pose proof (Qred_correct (round_pos (Z.pos n) (Z.pos d))) as E'.
    unfold unit_roundoff in *. split; lra.
  - exfalso. revert E Hx. unfold Qeq, Qlt. simpl. lia.
Qed.

Lemma round64_nonpos (x : Q) : (x <= 0)%Q → (round64 x <= 0)%Q.
Proof.
  intros Hx. unfold round64. cbv zeta.
  pose proof (Qred_correct x) as E.
  destruct (Qred x) as [[|n|n] d]; cbn [Qnum Qden]; rewrite Qred_correct.
  - done.
  - exfalso. revert E Hx. unfold Qeq, Qle. simpl. lia.
  - pose proof (round_pos_pos n d). lra.
Qed.

Lemma round64_pos (x : Q) : (0 < x)%Q → (0 < round64 x)%Q.
Proof.
  intros Hx. destruct (round64_pos_bounds x Hx) as [H _].
  unfold unit_roundoff in H. lra.
Qed.

(** An integer below [2^53] is a binary64 number. *)
Lemma round_pos_exact (n d c : Z) :
  0 < d → 0 < c < 2 ^ 53 → n = c * d →
  round_pos n d == inject_Z c.
Proof.
  intros Hd Hc ->. assert (Hn : 0 < c * d) by nia.
  destruct (round_pos_scale (c * d) d Hn Hd) as (Ha & Hb & HA & HP & _).
  cbv zeta in HP. unfold round_pos.
  destruct (Z.log2_spec (c * d) Hn) as [Ha1 Ha2].
  destruct (Z.log2_spec d Hd) as [Hb1 Hb2].
  set (a := Z.log2 (c * d)) in *. set (b := Z.log2 d) in *.
  assert (0 < 2 ^ b) by (apply Z.pow_pos_nonneg; lia).
  set (p := if c * d * 2 ^ b <? d * 2 ^ a then b + 53 else b + 52) in *.
  assert (Hap : a ≤ p).
  { subst p. destruct (Z.ltb_spec (c * d * 2 ^ b) (d * 2 ^ a)) as [Hlt|Hge].
    - assert (2 ^ a < 2 ^ (b + 54)); [|apply Z.pow_lt_mono_r_iff in H0; lia].
      replace (b + 54) with (53 + Z.succ b) by lia.
      rewrite Z.pow_add_r by lia. nia.
    - assert (2 ^ a < 2 ^ (b + 53)); [|apply Z.pow_lt_mono_r_iff in H0; lia].
      replace (b + 53) with (53 + b) by lia.
      rewrite Z.pow_add_r by lia. nia. }
  assert (HP' : 2 ^ p = 2 ^ (p - a) * 2 ^ a).
  { rewrite <- Z.pow_add_r by lia. f_equal. lia. }
  assert (E : c * d * 2 ^ p = c * 2 ^ (p - a) * (d * 2 ^ a))
    by (rewrite HP'; ring).
  unfold round_half_even. rewrite E.
  rewrite Z.div_mul, Z.mod_mul by lia.
  replace (2 * 0 ?= d * 2 ^ a) with Lt
    by (symmetry; apply Z.compare_lt_iff; lia).
  unfold Qeq. cbn [Qnum Qden inject_Z]. rewrite Z2Pos.id by done.
  rewrite HP'. ring.
Qed.

Lemma round64_int (c : Z) :
  0 < c < 2 ^ 53 → round64 (inject_Z c) == inject_Z c.
Proof.
  intros Hc. unfold round64. cbv zeta. rewrite Qred_correct.
  pose proof (Qred_correct (inject_Z c)) as E.
  destruct (Qred (inject_Z c)) as [num den]. cbn [Qnum Qden].
  unfold Qeq in E. cbn [Qnum Qden inject_Z] in E.
  destruct num as [|n|n]; [lia| |lia].
  apply round_pos_exact; [done|done|lia].
Qed.

(** The dollars of [k] cents are the number the literal [k/100] denotes. *)
Lemma usd_of_cents_literal (k : Z) :
  0 < k < 2 ^ 53 → usd_of_cents k = round64 (inject_Z k / 100)%Q.
Proof.
  intros Hk. unfold usd_of_cents. apply round64_proper.
  by rewrite round64_int.
Qed.

Lemma Qdiv_100 (x : Q) : (x / 100 = x * (1 # 100))%Q.
Proof. reflexivity. Qed.

(** For a maximum price of [k] cents, written [k/100] in dollars, with [k]
    below [2^50], the comparison of the binary64 amounts is the comparison
    of the cents. *)
Lemma over_max_price_cents (k c : Z) :
  k < 2 ^ 50 →
  over_max_price (round64 (inject_Z k / 100)) (usd_of_cents c) = true ↔
  0 < k ∧ k < c.
Proof.
  intros Hk. rewrite over_max_price_spec.
  assert (Elit : 0 < k → usd_of_cents k = round64 (inject_Z k / 100))
    by (intros; apply usd_of_cents_literal; lia).
  unfold usd_of_cents at 1. rewrite !Qdiv_100 in *.
  assert (Hk' : (inject_Z k < 1125899906842624)%Q)
    by (change 1125899906842624%Q with (inject_Z (2 ^ 50));
        by rewrite <- Zlt_Qlt).
  destruct (Z.le_gt_cases k 0) as [Hk0|Hk0].
  { split; [|lia]. intros [Hm _]. exfalso.
    assert (inject_Z k <= 0)%Q
      by (change 0%Q with (inject_Z 0); by rewrite <- Zle_Qle).
    pose proof (round64_nonpos (inject_Z k * (1 # 100)) ltac:(lra)). lra. }
  assert (Hk0' : (0 < inject_Z k)%Q)
    by (change 0%Q with (inject_Z 0); rewrite <- Zlt_Qlt; lia).
  pose proof (round64_pos_bounds (inject_Z k * (1 # 100)) ltac:(lra))
    as [Hm1 Hm2].
  specialize (Elit ltac:(lia)).
  set (m := round64 (inject_Z k * (1 # 100))) in *.
  unfold unit_roundoff in Hm1, Hm2.
  destruct (Z.le_gt_cases c 0) as [Hc0|Hc0].
  { split; [|lia]. intros [_ Hlt]. exfalso.
    assert (inject_Z c <= 0)%Q
      by (change 0%Q with (inject_Z 0); by rewrite <- Zle_Qle).
    pose proof (round64_nonpos (inject_Z c) ltac:(done)).
    pose proof (round64_nonpos (round64 (inject_Z c) * (1 # 100))
                  ltac:(lra)).
    lra. }
  assert (Hc0' : (0 < inject_Z c)%Q)
    by (change 0%Q with (inject_Z 0); rewrite <- Zlt_Qlt; lia).
  pose proof (round64_pos_bounds (inject_Z c) Hc0') as [Hy1 Hy2].
  pose proof (round64_pos (inject_Z c) Hc0') as Hy0.
  pose proof (round64_pos_bounds (round64 (inject_Z c) * (1 # 100))
                ltac:(lra)) as [Hz1 Hz2].
  set (y := round64 (inject_Z c)) in *.
  set (z := round64 (y * (1 # 100))) in *.
  unfold unit_roundoff in *.
  destruct (Z.lt_trichotomy k c) as [Hlt|[E|Hgt]].
  - split; [lia|]. intros _.
    assert (inject_Z k + 1 <= inject_Z c)%Q.
    { change 1%Q with (inject_Z 1). rewrite <- inject_Z_plus, <- Zle_Qle.
      lia. }
    clearbody m y z. split; lra.
  - split; [|lia]. intros [_ H]. exfalso. subst c.
    unfold usd_of_cents in Elit. rewrite !Qdiv_100 in Elit.
    fold y z in Elit. rewrite Elit in H. lra.
  - split; [|lia]. intros [_ H]. exfalso.
    assert (inject_Z c + 1 <= inject_Z k)%Q.
    { change 1%Q with (inject_Z 1). rewrite <- inject_Z_plus, <- Zle_Qle.
      lia. }
    clearbody m y z. lra.
Qed.

Lemma gems_match_spec (db : unicode_db) (desired_gems gems : list str) :
  gems_match db desired_gems gems = true ↔
  ∃ desired g, desired ∈ desired_gems ∧ g ∈ gems
               ∧ substring (lower db desired) (lower db g).
Proof.
  unfold gems_match. rewrite existsb_exists. split.
  - intros (desired & Hd & H). apply existsb_exists in H as (t & Ht & H).
    apply in_map_iff in Ht as (g & <- & Hg).
    exists desired, g. rewrite !list_elem_of_In, <- str_in_spec. done.
  - intros (desired & g & Hd & Hg & H). exists desired.
    rewrite <- list_elem_of_In. split; [done|].
    apply existsb_exists. exists (lower db g). split.
    + apply in_map. by apply list_elem_of_In.
    + by apply str_in_spec.
Qed.

Lemma has_desired_style_spec (desired_styles styles : list Z) :
  has_desired_style desired_styles styles = true ↔
  ∃ n, n ∈ desired_styles ∧ n ∈ styles.
Proof.
  unfold has_desired_style. rewrite existsb_exists.
  setoid_rewrite bool_decide_eq_true. by setoid_rewrite list_elem_of_In.
Qed.

Lemma gems_filter_spec (db : unicode_db) (desired_gems : option (list str))
    (gems : list str) :
  given desired_gems && negb (gems_match db (default [] desired_gems) gems)
  = false ↔ gems_ok db desired_gems gems.
Proof.
  unfold gems_ok. rewrite <- gems_match_spec.
  destruct (given desired_gems), (gems_match _ _ _); simpl; split; try done.
  - intros H. by specialize (H eq_refl).
Qed.

Lemma styles_filter_spec (desired_styles : option (list Z)) (styles : list Z) :
  given desired_styles
  && negb (has_desired_style (default [] desired_styles) styles) = false
  ↔ styles_ok desired_styles styles.
Proof.
  unfold styles_ok. rewrite <- has_desired_style_spec.
  destruct (given desired_styles), (has_desired_style _ _); simpl;
    split; try done.
  - intros H. by specialize (H eq_refl).
Qed.

(* ===================================================================== *)
(** ** One page *)
(* ===================================================================== *)

Section PageFacts.
Context (db : unicode_db) (self : parser) (assets : assets_map)
        (item_name : str) (desired_gems : option (list str))
        (desired_styles : option (list Z)) (max_price : Q) (page_num : Z).

Local Abbreviation process :=
  (process_listing db self assets item_name desired_gems desired_styles
                   max_price page_num).

(** A listing is kept exactly when it is new and passes the three
    filters. *)
Lemma process_listing_keep (listing_id : str) (l : listing) :
  is_Some (kept (snd (process (listing_id, l)))) ↔
  (listing_id ∉ notified_listings self)
  ∧ price_ok max_price (price_cents_of l)
  ∧ gems_ok db desired_gems (listing_gems db self assets item_name l)
  ∧ styles_ok desired_styles (listing_styles db self assets item_name l).
Proof.
  rewrite process_listing_outcome.
  rewrite <- over_max_price_false, <- gems_filter_spec, <- styles_filter_spec.
  unfold listing_gems, listing_styles.
  case_bool_decide as Hn.
  { simpl. split; [intros [? ?]; done|]. intros [? _]. done. }
  destruct (over_max_price _ _).
  { simpl. split; [intros [? ?]; done|]. intros (_ & ? & _). done. }
  destruct (listing_attrs db self assets item_name l) as [[n g] s]. simpl.
  destruct (given desired_gems && _).
  { simpl. split; [intros [? ?]; done|]. intros (_ & _ & ? & _). done. }
  destruct (given desired_styles && _).
  { simpl. split; [intros [? ?]; done|]. intros (_ & _ & _ & ?). done. }
  simpl. split; [done|eauto].
Qed.

Lemma process_listing_kept_id (listing_id : str) (l : listing) (it : item) :
  snd (process (listing_id, l)) = Keep it →
  it_listing_id it = listing_id
  ∧ it_price_value it = usd_of_cents (price_cents_of l)
  ∧ it_gems it = listing_gems db self assets item_name l
  ∧ it_styles it = listing_styles db self assets item_name l.
Proof.
  rewrite process_listing_outcome. unfold listing_gems, listing_styles.
  case_bool_decide; [done|]. destruct (over_max_price _ _); [done|].
  destruct (listing_attrs db self assets item_name l) as [[n g] s].
  destruct (given desired_gems && _); [done|].
  destruct (given desired_styles && _); [done|].
  intros [= <-]. simpl. done.
Qed.

(** The loop over the page gathers the work and the kept items of its
    listings, in order. *)
Lemma page_loop_spec (listinginfo : list (str * listing))
    (acc : list event * list item) :
  fold_left (page_step db self assets item_name desired_gems desired_styles
                       max_price page_num) listinginfo acc =
  (fst acc ++ flat_map (fun e => fst (process e)) listinginfo,
   acc.2 ++ omap (fun e => kept (snd (process e))) listinginfo).
Proof.
  revert acc. induction listinginfo as [|e li IH]; intros [work found].
  - simpl. by rewrite !app_nil_r.
  - cbn [fold_left]. rewrite IH. unfold page_step. simpl.
    destruct (process e) as [w o]. cbn [fst snd].
    destruct o; simpl; by rewrite <- ?app_assoc.
Qed.

Lemma process_page_listings_spec (listinginfo : list (str * listing)) :
  _process_page_listings db self listinginfo assets item_name desired_gems
                         desired_styles max_price page_num
  = omap (fun e => kept (snd (process e))) listinginfo.
Proof.
  unfold _process_page_listings, process_page_traced.
  by rewrite page_loop_spec.
Qed.

Lemma process_page_work_spec (listinginfo : list (str * listing)) :
  fst (process_page_traced db self listinginfo assets item_name desired_gems
                           desired_styles max_price page_num)
  = flat_map (fun e => fst (process e)) listinginfo.
Proof. unfold process_page_traced. by rewrite page_loop_spec. Qed.

(** No item of the page has a notified identifier. *)
Lemma process_page_listings_new (listinginfo : list (str * listing))
    (it : item) :
  it ∈ _process_page_listings db self listinginfo assets item_name
         desired_gems desired_styles max_price page_num →
  (it_listing_id it ∉ notified_listings self)
  ∧ ∃ l, (it_listing_id it, l) ∈ listinginfo.
Proof.
  rewrite process_page_listings_spec.
  intros ([listing_id l] & He & Hk)%list_elem_of_omap.
  destruct (snd (process (listing_id, l))) as [| | | |it'] eqn:E; try done.
  injection Hk as ->.
  pose proof E as (Hid & _)%process_listing_kept_id. rewrite Hid.
  split; [|eauto].
  assert (Hs : is_Some (kept (snd (process (listing_id, l))))) by (rewrite E; eauto).
  by apply process_listing_keep in Hs as [? _].
Qed.
End PageFacts.

(* ===================================================================== *)
(** ** The scan *)
(* ===================================================================== *)

Lemma get_item_listings_page_rate_limited
    (net : nat -> Z -> http_outcome) (start : Z) (w : world) :
  (∀ i, (i < 3)%nat → ∃ b, net (requests w + i)%nat start = Response 429 b) →
  get_item_listings_page net start w =
  (Returned None,
   {| requests := requests w + 3; slept := slept w ++ [60; 120; 180] |}).
Proof.
  intros H. unfold get_item_listings_page, max_retries. cbn [seq].
  destruct (H 0%nat) as [b0 H0]; [lia|].
  destruct (H 1%nat) as [b1 H1]; [lia|].
  destruct (H 2%nat) as [b2 H2]; [lia|].
  rewrite Nat.add_0_r in H0.
  rewrite attempts_cons, H0. cbn -[attempts Z.mul Z.add Z.of_nat].
  rewrite attempts_cons. cbn [requests slept].
  replace (S (requests w)) with (requests w + 1)%nat by lia.
  rewrite H1. cbn -[attempts Z.mul Z.add Z.of_nat].
  rewrite attempts_cons. cbn [requests slept].
  replace (S (requests w + 1)) with (requests w + 2)%nat by lia.
  rewrite H2. cbn -[Z.mul Z.add Z.of_nat]. unfold ret.
  rewrite <- !app_assoc. f_equal. f_equal. lia.
Qed.

Section ScanFacts.
Context (net : nat -> Z -> http_outcome) (db : unicode_db) (self : parser)
        (item_name : str) (desired_gems : option (list str))
        (desired_styles : option (list Z)) (max_price : Q).

Local Abbreviation loop :=
  (parse_loop net db self item_name desired_gems desired_styles max_price).
Local Abbreviation page :=
  (fun data start =>
     _process_page_listings db self (default [] (listinginfo data))
       (default ∅ (assets data)) item_name desired_gems desired_styles
       max_price (start / PAGE_SIZE + 1)).

(** One turn of the loop [while True]. *)
Lemma parse_loop_S (fuel : nat) (start : Z) (seen : option Z)
    (found_items : list item) (w : world) :
  loop (S fuel) start seen found_items w =
  match get_item_listings_page net start w with
  | (Raised e, w1) => (Some (Raised e), w1)
  | (Returned None, w1) => (Some (Returned found_items), w1)
  | (Returned (Some data), w1) =>
      let total := match seen with
                   | None => default 0 (total_count data)
                   | Some t => t
                   end in
      if bool_decide (seen = None) && (total =? 0)
      then (Some (Returned found_items), w1)
      else if negb (truthy (default [] (listinginfo data)))
      then (Some (Returned found_items), w1)
      else if total <=? start + PAGE_SIZE
      then (Some (Returned (found_items ++ page data start)), w1)
      else loop fuel (start + PAGE_SIZE) (Some total)
             (found_items ++ page data start)
             {| requests := requests w1; slept := slept w1 ++ [3] |}
  end.
Proof.
  cbn [parse_loop]. unfold bind at 1.
  destruct (get_item_listings_page net start w) as [[[data|]|e] w1];
    [|done..].
  cbv zeta. destruct (bool_decide (seen = None) && _); [done|].
  destruct (negb (truthy _)); [done|].
  destruct (_ <=? _); done.
Qed.

(** Once the total is known, the distance to it bounds the turns left. *)
Lemma parse_loop_terminates (fuel : nat) (start total : Z)
    (found_items : list item) (w : world) :
  (Z.to_nat (total - start) < fuel)%nat →
  ∃ r w', loop fuel start (Some total) found_items w = (Some r, w').
Proof.
  revert start found_items w.
  induction fuel as [|fuel IH]; intros start found_items w Hf; [lia|].
  rewrite parse_loop_S.
  destruct (get_item_listings_page net start w) as [[[data|]|e] w1];
    [|eauto..].
  cbv zeta. rewrite bool_decide_eq_false_2 by done. cbn [andb].
  destruct (negb (truthy _)); [eauto|].
  destruct (Z.leb_spec total (start + PAGE_SIZE)); [eauto|].
  apply IH. unfold PAGE_SIZE in *. lia.
Qed.

(** More fuel does not change a result. *)
Lemma parse_loop_more_fuel (fuel : nat) (start : Z) (seen : option Z)
    (found_items : list item) (w : world) (r : result (list item))
    (w' : world) :
  loop fuel start seen found_items w = (Some r, w') →
  loop (S fuel) start seen found_items w = (Some r, w').
Proof.
  revert start seen found_items w.
  induction fuel as [|fuel IH]; intros start seen found_items w; [done|].
  rewrite (parse_loop_S (S fuel)), (parse_loop_S fuel).
  destruct (get_item_listings_page net start w) as [[[data|]|e] w1];
    [|done..].
  cbv zeta. destruct (bool_decide (seen = None) && _); [done|].
  destruct (negb (truthy _)); [done|].
  destruct (_ <=? _); [done|]. apply IH.
Qed.

(** The scan keeps what it has found and adds only items of pages. *)
Lemma parse_loop_Forall (P : item -> Prop) :
  (∀ data start, Forall P (page data start)) →
  ∀ fuel start seen found_items w r w',
    Forall P found_items →
    loop fuel start seen found_items w = (Some (Returned r), w') →
    Forall P r.
Proof.
  intros HP. induction fuel as [|fuel IH];
    intros start seen found_items w r w' Hfound; [done|].
  rewrite parse_loop_S.
  destruct (get_item_listings_page net start w) as [[[data|]|e] w1];
    [|by intros [= <- <-]|done].
  cbv zeta. destruct (bool_decide (seen = None) && _); [by intros [= <- <-]|].
  destruct (negb (truthy _)); [by intros [= <- <-]|].
  assert (Forall P (found_items ++ page data start))
    by (apply Forall_app; auto).
  destruct (_ <=? _); [by intros [= <- <-]|]. by apply IH.
Qed.

Lemma parse_loop_fuel_le (fuel fuel' : nat) (start : Z) (seen : option Z)
    (found_items : list item) (w : world) (r : result (list item))
    (w' : world) :
  (fuel ≤ fuel')%nat →
  loop fuel start seen found_items w = (Some r, w') →
  loop fuel' start seen found_items w = (Some r, w').
Proof.
  induction 1 as [|fuel' _ IH]; [done|].
  intros H. by apply parse_loop_more_fuel, IH.
Qed.

(** The scan ends, by a return or by an exception of the fetch, and with
    any larger amount of fuel it ends the same. *)
Lemma parse_listings_terminates (w : world) :
  ∃ fuel r w', ∀ fuel', (fuel ≤ fuel')%nat →
    parse_listings net db self item_name desired_gems desired_styles
                   max_price fuel' w = (Some r, w').
Proof.
  assert (∃ fuel r w',
             parse_listings net db self item_name desired_gems desired_styles
                            max_price fuel w = (Some r, w'))
    as (fuel & r & w' & H).
  { unfold parse_listings.
    destruct (get_item_listings_page net 0 w) as [[[data|]|e] w1] eqn:E.
    - set (total := default 0 (total_count data)).
      exists (S (S (Z.to_nat (total - PAGE_SIZE)))).
      rewrite parse_loop_S, E. cbv zeta. fold total.
      destruct (bool_decide (None = None) && _); [eauto|].
      destruct (negb (truthy _)); [eauto|].
      destruct (_ <=? _); [eauto|].
      apply parse_loop_terminates. rewrite Z.add_0_l. lia.
    - exists 1%nat. rewrite parse_loop_S, E. eauto.
    - exists 1%nat. rewrite parse_loop_S, E. eauto. }
  exists fuel, r, w'. intros fuel' Hle. unfold parse_listings in *.
  by eapply parse_loop_fuel_le.
Qed.

Local Abbreviation items_from :=
  (items_of_pages db self item_name desired_gems desired_styles max_price).

(** Once the total is known, the loop goes through the pages that are
    fetched, as long as the total is not reached. *)
Lemma parse_loop_through (pages : list page_data) :
  ∀ fuel start total found_items w w',
    pages_fetched net start w pages w' →
    Forall (fun data => default [] (listinginfo data) ≠ []) pages →
    start + PAGE_SIZE * Z.of_nat (length pages) < total →
    loop (length pages + fuel) start (Some total) found_items w =
    loop fuel (start + PAGE_SIZE * Z.of_nat (length pages)) (Some total)
      (found_items ++ items_from (start / PAGE_SIZE + 1) pages) w'.
Proof.
  induction pages as [|data pages IH];
    intros fuel start total found_items w w' Hf Hne Ht.
  - cbn in Hf. subst w'. cbn [length items_of_pages Nat.add].
    rewrite app_nil_r. f_equal. unfold PAGE_SIZE. lia.
  - destruct Hf as (w1 & Hfetch & Hf).
    apply Forall_cons in Hne as [Hd Hne].
    cbn [length Nat.add]. rewrite parse_loop_S, Hfetch. cbv zeta.
    rewrite bool_decide_eq_false_2 by done. cbn [andb].
    destruct (default [] (listinginfo data)) as [|e li] eqn:El; [done|].
    change (negb (truthy (e :: li))) with false. cbv iota.
    unfold PAGE_SIZE in *. cbn [length] in Ht.
    destruct (Z.leb_spec total (start + 100)); [lia|].
    rewrite (IH fuel (start + 100) total _ _ w' Hf Hne) by lia.
    cbn [items_of_pages]. rewrite El, <- app_assoc.
    replace ((start + 100) / 100 + 1) with (start / 100 + 1 + 1).
    + f_equal. lia.
    + replace (start + 100) with (start + 1 * 100) by lia.
      by rewrite Z.div_add.
Qed.

(** The scan goes through the pages that are fetched, as long as the
    total of the first page is not reached. *)
Lemma parse_listings_through (pages : list page_data) (fuel : nat)
    (w w' : world) :
  pages_fetched net 0 w pages w' →
  Forall (fun data => default [] (listinginfo data) ≠ []) pages →
  (∀ total, first_total pages = Some total →
            PAGE_SIZE * Z.of_nat (length pages) < total) →
  parse_listings net db self item_name desired_gems desired_styles max_price
    (length pages + fuel) w =
  loop fuel (PAGE_SIZE * Z.of_nat (length pages)) (first_total pages)
    (items_from 1 pages) w'.
Proof.
  intros Hf Hne Ht. unfold parse_listings.
  destruct pages as [|data pages].
  { cbn in Hf. by subst w'. }
  destruct Hf as (w1 & Hfetch & Hf).
  apply Forall_cons in Hne as [Hd Hne].
  specialize (Ht _ eq_refl). cbn [length] in Ht. unfold PAGE_SIZE in *.
  cbn [length Nat.add first_total]. rewrite parse_loop_S, Hfetch. cbv zeta.
  destruct (Z.eqb_spec (default 0 (total_count data)) 0) as [E|_]; [lia|].
  rewrite andb_false_r.
  destruct (default [] (listinginfo data)) as [|e li] eqn:El; [done|].
  change (negb (truthy (e :: li))) with false. cbv iota.
  unfold PAGE_SIZE.
  destruct (Z.leb_spec (default 0 (total_count data)) (0 + 100)); [lia|].
  rewrite (parse_loop_through pages fuel (0 + 100) _ _ _ w' Hf Hne)
    by (unfold PAGE_SIZE; lia).
  cbn [items_of_pages app]. rewrite El. unfold PAGE_SIZE.
  change (0 / 100 + 1) with 1. change ((0 + 100) / 100 + 1) with (1 + 1).
  f_equal. lia.
Qed.

Lemma items_of_pages_app (page_num : Z) (pages1 pages2 : list page_data) :
  items_from page_num (pages1 ++ pages2) =
  items_from page_num pages1
  ++ items_from (page_num + Z.of_nat (length pages1)) pages2.
Proof.
  revert page_num. induction pages1 as [|data pages1 IH]; intros page_num.
  - cbn [app length items_of_pages]. f_equal. lia.
  - cbn [app length items_of_pages]. rewrite IH, <- app_assoc.
    do 3 f_equal. lia.
Qed.

(** The scan raises only what a fetch raises. *)
Lemma parse_loop_raised (fuel : nat) :
  ∀ start seen found_items w e w',
    loop fuel start seen found_items w = (Some (Raised e), w') →
    ∃ start' w0, get_item_listings_page net start' w0 = (Raised e, w').
Proof.
  induction fuel as [|fuel IH]; intros start seen found_items w e w'; [done|].
  rewrite parse_loop_S.
  destruct (get_item_listings_page net start w) as [[[data|]|e'] w1] eqn:E.
  - cbv zeta. destruct (bool_decide (seen = None) && _); [done|].
    destruct (negb (truthy _)); [done|].
    destruct (_ <=? _); [done|]. apply IH.
  - done.
  - intros H. destruct e, e'. injection H as <-. eauto.
Qed.
End ScanFacts.

Lemma after_calls_notified (self : parser) (cs : list method_call) (x : str) :
  x ∈ notified_listings (after_calls self cs) ↔
  x ∈ notified_listings self ∨ call_mark_as_notified x ∈ cs.
Proof.
  unfold after_calls. revert self.
  induction cs as [|c cs IH]; intros self; cbn [fold_left].
  - split; [eauto|]. intros [?|H]; [done|]. by apply elem_of_nil in H.
  - rewrite IH, elem_of_cons. destruct c as [? ? ? ?|listing_id]; simpl.
    + split; [intros [?|?]; eauto|]. intros [?|[?|?]]; eauto. done.
    + rewrite elem_of_union, elem_of_singleton. split.
      * intros [[?| ->]|?]; eauto.
      * intros [?|[[= ->]|?]]; eauto.
Qed.

Lemma given_false_ok {T} (desired : option (list T)) :
  given desired = false ↔ desired = None ∨ desired = Some [].
Proof.
  destruct desired as [[|x l]|]; simpl; split; eauto; try done.
  intros [?|?]; done.
Qed.

(* ===================================================================== *)
(** * The claims of the specification *)
(* ===================================================================== *)

(** Claim C1, as amended.  For every list of description entries the result
    of [extract_unlocked_styles] is sorted ascending and free of duplicates,
    and it holds exactly the numbers of the entries whose markup-stripped
    text carries no locked marker (["Locked"], ["Заблокировано"],
    ["Заблоковано"], the first letter in either case and the rest in lower
    case), each entry giving the number of the first of the patterns
    "Upgrade Style N", "Style N", "Стиль-улучшение N", tried in that order,
    that matches it.  For ["Upgrade Style 6"; "Upgrade Style 7 (Locked)"]
    the result is [6]. *)
Theorem extract_unlocked_styles_sorted_unlocked
    (db : unicode_db) (ds : list description) :
  (StronglySorted Z.lt (extract_unlocked_styles db ds)
   ∧ NoDup (extract_unlocked_styles db ds))
  ∧ (∀ n, n ∈ extract_unlocked_styles db ds ↔
          ∃ d, d ∈ ds ∧ ¬ has_locked_marker (clean_of d)
               ∧ first_match db (style_patterns db) (clean_of d) = Some n)
  ∧ extract_unlocked_styles basic_db
      [text "Upgrade Style 6"; text "Upgrade Style 7 (Locked)"] = [6].
Proof.
  unfold extract_unlocked_styles.
  assert (Hn : NoDup (merge_sort Z.le (fold_left (styles_step db) ds []))).
  { rewrite merge_sort_Permutation. apply NoDup_styles_loop, NoDup_nil_2. }
  split_and!.
  - apply strongly_sorted_lt; [|done]. apply StronglySorted_merge_sort; apply _.
  - done.
  - intros n. rewrite merge_sort_Permutation, elem_of_styles_loop.
    split; [|eauto]. intros [H|H]; [|done]. by apply elem_of_nil in H.
  - vm_compute. reflexivity.
Qed.

(** Claim C1 as stated fails: the text of ["Upgrade Style 7 (LOCKED)"]
    carries the locked marker once letter case is ignored, and the entry
    still gives its number. *)
Lemma extract_unlocked_styles_upper_case_marker :
  has_locked_marker_any_case (clean_of (text "Upgrade Style 7 (LOCKED)")) = true
  ∧ extract_unlocked_styles basic_db [text "Upgrade Style 7 (LOCKED)"] = [7].
Proof. vm_compute. done. Qed.

(** Claim C2, as amended.  Gem extraction tries two strategies in order,
    the first non-empty result winning: (a) the markup-stripped texts of
    exactly the entries that have a non-empty text and whose value, as
    received, contains "Prismatic:" or "Ethereal:", or that are of type
    "html" with "color" in the value and "Gem", "Prismatic" or "Ethereal" in
    the text; (b) otherwise every non-empty text other than "Empty Socket"
    from the first entry whose value contains "Socket" or "Gem" onward.
    No entry outside these two rules contributes a gem string. *)
Theorem extract_gems_two_strategies (ds : list description) :
  extract_gems ds =
    (let a := map clean_of (List.filter gem_entry ds) in
     if truthy a then a else gems_of_socket_section ds)
  ∧ (∀ g, g ∈ extract_gems ds →
          ∃ d, d ∈ ds ∧ g = clean_of d
               ∧ (gem_entry d = true
                  ∨ d ∈ from_socket_section ds ∧ socket_gem g = true)).
Proof.
  assert (H : extract_gems ds =
              (let a := map clean_of (List.filter gem_entry ds) in
               if truthy a then a else gems_of_socket_section ds)).
  { unfold extract_gems.
    by rewrite extract_gems_from_descriptions_spec, extract_socket_gems_spec. }
  split; [done|]. rewrite H. cbv zeta. intros g.
  destruct (truthy (map clean_of (List.filter gem_entry ds))).
  - intros (d & -> & Hd)%list_elem_of_fmap.
    apply list_elem_of_In, filter_In in Hd as [Hd Hg].
    exists d. rewrite list_elem_of_In. eauto.
  - unfold gems_of_socket_section.
    intros [Hg Hs]%list_elem_of_In%filter_In.
    apply list_elem_of_In, list_elem_of_fmap in Hg as (d & -> & Hd).
    exists d. split_and!; [|done|by right].
    by apply from_socket_section_subseteq.
Qed.

(** Claim C2 as stated fails in both directions of its rule (a): an entry of
    type "html" with a coloured "Ethereal thing" is collected by the first
    strategy although its text has no "Ethereal:", and an entry that has
    "Prismatic:" only inside its markup is collected although its text
    has not. *)
Lemma extract_gems_not_as_stated :
  (extract_gems [text "Socket"; html "<font color=red>Ethereal thing</font>"]
     = [utf8 "Ethereal thing"]
   ∧ extract_gems_as_stated
       [text "Socket"; html "<font color=red>Ethereal thing</font>"]
     = [utf8 "Socket"; utf8 "Ethereal thing"])
  ∧ (extract_gems [text "<b title='Prismatic: x'>Red</b>"] = [utf8 "Red"]
     ∧ extract_gems_as_stated [text "<b title='Prismatic: x'>Red</b>"] = []).
Proof. vm_compute. done. Qed.

(** Claim C3, as amended.  [get_max_style_from_tags] returns the maximum of
    the numbers found by the English and the Cyrillic pattern in each tag's
    localized name (or its name when that is empty) when that maximum is
    positive, and none when no tag matches or no number found exceeds 0.
    During normalization, when the description-based extraction yields
    nothing and the tag-derived maximum is some K, the styles of the listing
    are the sequence 1..K. *)
Theorem get_max_style_from_tags_spec (db : unicode_db) (ts : list tag) :
  (∀ K, get_max_style_from_tags db ts = Some K ↔
        0 < K ∧ K ∈ tag_numbers db ts
        ∧ ∀ n, n ∈ tag_numbers db ts → n ≤ K)
  ∧ (get_max_style_from_tags db ts = None ↔
     ∀ n, n ∈ tag_numbers db ts → n ≤ 0)
  ∧ (∀ self assets item_name l d K,
        find_item_desc self assets l = Some d →
        default [] (tags d) = ts →
        extract_unlocked_styles db (default [] (descriptions d)) = [] →
        get_max_style_from_tags db ts = Some K →
        (listing_attrs db self assets item_name l).2 = seqZ 1 K
        ∧ ∀ n, n ∈ seqZ 1 K ↔ 1 ≤ n ≤ K).
Proof.
  split_and!.
  - intros K. apply get_max_style_from_tags_Some.
  - apply get_max_style_from_tags_None.
  - intros self assets item_name l d K Hd <- He Hm. split.
    + unfold listing_attrs. rewrite Hd.
      by apply describe_item_styles_from_tags.
    + intros n. rewrite elem_of_seqZ. lia.
Qed.

(** Claim C3 as stated fails: the tag "Style 0" matches and the number found
    is 0, yet the result is none and not 0. *)
Lemma get_max_style_from_tags_zero :
  tag_numbers basic_db [Tag None (Some (utf8 "Style 0"))] = [0]
  ∧ get_max_style_from_tags basic_db [Tag None (Some (utf8 "Style 0"))] = None.
Proof. vm_compute. done. Qed.

(** Claim C4.  No listing whose identifier is in the notified set is
    normalized or returned: the items of a page, and so those of a whole
    scan, have identifiers outside the set; the work recorded for a page
    (price computation, asset lookup, attribute extraction) concerns no
    notified listing, so a page whose identifiers are all notified causes no
    work and no item.  The scan ends (the same for every amount of fuel
    from some amount on).  The notified set only grows, and only by
    [mark_as_notified]. *)
Theorem notified_listings_skipped
    (db : unicode_db) (self : parser) (item_name : str)
    (desired_gems : option (list str)) (desired_styles : option (list Z))
    (max_price : Q) :
  (∀ listinginfo assets page_num,
      let traced := process_page_traced db self listinginfo assets item_name
                      desired_gems desired_styles max_price page_num in
      (∀ it, it ∈ snd traced → it_listing_id it ∉ notified_listings self)
      ∧ (∀ e, e ∈ fst traced → event_id e ∉ notified_listings self)
      ∧ ((∀ entry, entry ∈ listinginfo →
                   fst entry ∈ notified_listings self) →
         traced = ([], [])))
  ∧ (∀ net w,
        (∃ fuel r w', ∀ fuel', (fuel ≤ fuel')%nat →
            parse_listings net db self item_name desired_gems desired_styles
                           max_price fuel' w = (Some r, w'))
        ∧ ∀ fuel r w',
            parse_listings net db self item_name desired_gems desired_styles
                           max_price fuel w = (Some (Returned r), w') →
            ∀ it, it ∈ r → it_listing_id it ∉ notified_listings self)
  ∧ (∀ cs x,
        (x ∈ notified_listings self →
         x ∈ notified_listings (after_calls self cs))
        ∧ (x ∈ notified_listings (after_calls self cs) →
           x ∈ notified_listings self ∨ call_mark_as_notified x ∈ cs)).
Proof.
  split_and!.
  - intros listinginfo assets page_num traced.
    assert (Hw : ∀ e, e ∈ fst traced → event_id e ∉ notified_listings self).
    { subst traced. rewrite process_page_work_spec.
      intros e (entry & He & Hentry)%list_elem_of_In%in_flat_map.
      apply list_elem_of_In in Hentry. destruct entry as [listing_id l].
      pose proof (process_listing_work db self assets item_name desired_gems
                    desired_styles max_price page_num listing_id l) as [H1 H2].
      cbv zeta in H1, H2. rewrite (H1 e Hentry). intros Hn.
      rewrite (H2 Hn) in Hentry. by apply elem_of_nil in Hentry. }
    split_and!; [|done|].
    + intros it Hit.
      by apply (process_page_listings_new db self assets item_name
                  desired_gems desired_styles max_price page_num listinginfo).
    + intros Hall. apply injective_projections.
      * subst traced. rewrite process_page_work_spec. simpl.
        induction listinginfo as [|[listing_id l] li IH]; [done|].
        cbn [flat_map].
        pose proof (process_listing_work db self assets item_name desired_gems
                    desired_styles max_price page_num listing_id l) as [_ H2].
        cbv zeta in H2. rewrite H2.
        -- apply IH.
           ++ intros e He. apply Hw. rewrite process_page_work_spec.
              cbn [flat_map]. apply elem_of_app. right.
              by rewrite <- process_page_work_spec.
           ++ intros entry He. apply Hall. by right.
        -- apply (Hall (listing_id, l)). by left.
      * subst traced. simpl.
        destruct (_process_page_listings db self listinginfo assets item_name
                    desired_gems desired_styles max_price page_num)
          as [|it its] eqn:E; [done|].
        assert (Hit : it ∈ _process_page_listings db self listinginfo assets
                        item_name desired_gems desired_styles max_price
                        page_num) by (rewrite E; left).
        apply process_page_listings_new in Hit as (Hn & l & Hl).
        destruct Hn. by apply (Hall _ Hl).
  - intros net w. split; [apply parse_listings_terminates|].
    intros fuel r w' Hr. apply Forall_forall.
    eapply (parse_loop_Forall net db self item_name desired_gems desired_styles
              max_price
              (fun it => it_listing_id it ∉ notified_listings self));
      [| |exact Hr]; [|done].
    intros data start. apply Forall_forall. intros it Hit.
    by apply process_page_listings_new in Hit as [? _].
  - intros cs x. rewrite after_calls_notified. split; eauto.
Qed.



(** Claim C6.  With a non-empty list of desired gems, a listing that
    reaches the gems filter (not notified, not over the maximum price) gets
    past it if and only if some desired gem name, lower-cased, occurs
    inside some extracted gem string of the listing, lower-cased: any
    desired name against any gem, by inclusion and not by equality.  A
    listing whose gem description is "Prismatic: Frostbite" matches the
    desired gems ["frost"]. *)
Theorem gems_filter_any_substring
    (db : unicode_db) (self : parser) (assets : assets_map) (item_name : str)
    (desired : list str) (desired_styles : option (list Z))
    (max_price : Q) (page_num : Z) (listing_id : str) (l : listing) :
  desired ≠ [] →
  listing_id ∉ notified_listings self →
  price_ok max_price (price_cents_of l) →
  let o := snd (process_listing db self assets item_name (Some desired)
                  desired_styles max_price page_num (listing_id, l)) in
  let matching :=
    ∃ d g, d ∈ desired ∧ g ∈ listing_gems db self assets item_name l
           ∧ substring (lower db d) (lower db g) in
  (o ≠ RejectGems ↔ matching)
  ∧ (desired_styles = None → is_Some (kept o) ↔ matching)
  ∧ extract_gems [text "Prismatic: Frostbite"] = [utf8 "Prismatic: Frostbite"]
  ∧ gems_match basic_db [utf8 "frost"] [utf8 "Prismatic: Frostbite"] = true
  ∧ gems_match basic_db [utf8 "Frostbite"] [utf8 "Prismatic: Frost"] = false.
Proof.
  intros Hd Hn Hp o matching.
  assert (Hgiven : given (Some desired) = true) by (by destruct desired).
  assert (Hok : gems_ok db (Some desired)
                  (listing_gems db self assets item_name l) ↔ matching).
  { unfold gems_ok. rewrite Hgiven. simpl. subst matching. split; auto. }
  split_and!; [| |vm_compute; reflexivity..].
  - rewrite <- Hok, <- gems_filter_spec. subst o.
    rewrite process_listing_outcome. rewrite bool_decide_eq_false_2 by done.
    apply over_max_price_false in Hp. rewrite Hp.
    unfold listing_gems.
    destruct (listing_attrs db self assets item_name l) as [[n g] s].
    cbn [fst snd].
    destruct (given (Some desired)
              && negb (gems_match db (default [] (Some desired)) g));
      [by split|].
    split; [done|]. intros _. by destruct (given desired_styles && _).
  - intros ->. subst o. rewrite process_listing_keep, Hok.
    split; [tauto|]. intros H. split_and!; try done.
Qed.

Lemma gems_filter_any_substring_witness :
  let o := snd (process_listing basic_db (Parser 570 ∅)
             {[ utf8 "570" := {[ utf8 "2" := {[ utf8 "7" :=
                  AssetDescription None
                    (Some [text "Prismatic: Frostbite"]) None false ]} ]} ]}
             (utf8 "Onibi") (Some [utf8 "frost"]) None 0 1
             (utf8 "1",
              Listing (Some 1000) (Some 500)
                      (Some (AssetRef None None (Some (utf8 "7")))))) in
  o ≠ RejectGems ↔
  ∃ d g, d ∈ [utf8 "frost"]
         ∧ g ∈ listing_gems basic_db (Parser 570 ∅)
             {[ utf8 "570" := {[ utf8 "2" := {[ utf8 "7" :=
                  AssetDescription None
                    (Some [text "Prismatic: Frostbite"]) None false ]} ]} ]}
             (utf8 "Onibi")
             (Listing (Some 1000) (Some 500)
                      (Some (AssetRef None None (Some (utf8 "7")))))
         ∧ substring (lower basic_db d) (lower basic_db g).
Proof.
  apply (gems_filter_any_substring basic_db (Parser 570 ∅)
           {[ utf8 "570" := {[ utf8 "2" := {[ utf8 "7" :=
                AssetDescription None
                  (Some [text "Prismatic: Frostbite"]) None false ]} ]} ]}
           (utf8 "Onibi") [utf8 "frost"] None 0 1 (utf8 "1")
           (Listing (Some 1000) (Some 500)
                    (Some (AssetRef None None (Some (utf8 "7")))))).
  - discriminate.
  - apply not_elem_of_empty.
  - intros [H _]. vm_compute in H. discriminate H.
Defined.




(** Claim C8, what the code does.  A page fetch makes at most 3 requests.
    On HTTP 429 at attempt number a (1, 2, 3) it waits 60 × a seconds and
    goes on to the next attempt; three 429 in a row end in a failure that
    is returned ([None]), after waits of 60, 120 and 180 seconds.  On a
    network-level error it waits 10 seconds and tries again while attempts
    remain; three errors in a row end in a returned failure after two waits
    of 10 seconds.  On a body that does not report success it fails at
    once: no wait and no further request.  A body that reports success is
    returned, also when it comes after attempts that were retried.

    The claim's last part does not hold of a malformed body.  A body that
    is no JSON text is taken by the handler of [RequestException], so it is
    retried like a network error: three of them cost three requests and two
    waits of 10 seconds, and the handler of [ValueError], which returns at
    once, is never reached.  A body that is JSON but no object makes the
    fetch raise [AttributeError]; the fetch raises in no other case. *)
Theorem get_item_listings_page_retries
    (net : nat -> Z -> http_outcome) (start : Z) (w : world) :
  let n := requests w in
  (requests (get_item_listings_page net start w).2 ≤ n + 3)%nat
  ∧ (∀ attempt range b,
        net n start = Response 429 b →
        attempts net start (attempt :: range) w =
        attempts net start range
          {| requests := S n;
             slept := slept w ++ [60 * (Z.of_nat attempt + 1)] |})
  ∧ (∀ attempt range,
        request_error (net n start) →
        (attempt < 2)%nat →
        attempts net start (attempt :: range) w =
        attempts net start range
          {| requests := S n; slept := slept w ++ [10] |})
  ∧ ((∀ i, (i < 3)%nat → ∃ b, net (n + i)%nat start = Response 429 b) →
     get_item_listings_page net start w =
     (Returned None,
      {| requests := n + 3; slept := slept w ++ [60; 120; 180] |}))
  ∧ ((∀ i, (i < 3)%nat → request_error (net (n + i)%nat start)) →
     get_item_listings_page net start w =
     (Returned None, {| requests := n + 3; slept := slept w ++ [10; 10] |}))
  ∧ (∀ status_code data,
        net n start = Response status_code (Json data) →
        status_code ≠ 429 →
        raises_for_status status_code = false →
        success data = false →
        get_item_listings_page net start w =
        (Returned None, {| requests := S n; slept := slept w |}))
  ∧ (∀ i status_code data,
        (i < 3)%nat →
        (∀ j, (j < i)%nat → retried (net (n + j)%nat start)) →
        net (n + i)%nat start = Response status_code (Json data) →
        status_code ≠ 429 →
        raises_for_status status_code = false →
        success data = true →
        get_item_listings_page net start w =
        (Returned (Some data),
         {| requests := n + i + 1;
            slept := slept w
                     ++ map (fun j => wait_after j (net (n + j)%nat start))
                            (seq 0 i) |}))
  ∧ (∀ status_code,
        net n start = Response status_code NotObject →
        status_code ≠ 429 →
        raises_for_status status_code = false →
        get_item_listings_page net start w =
        (Raised AttributeError, {| requests := S n; slept := slept w |}))
  ∧ (∀ e, (get_item_listings_page net start w).1 = Raised e →
          ∃ i status_code,
            (i < 3)%nat
            ∧ net (n + i)%nat start = Response status_code NotObject)
  ∧ get_item_listings_page (fun _ _ => Response 200 BadJson) 0 (World 0 [])
    = (Returned None, {| requests := 3; slept := [10; 10] |})
  ∧ get_item_listings_page (fun _ _ => Response 200 NotObject) 0 (World 0 [])
    = (Raised AttributeError, {| requests := 1; slept := [] |}).
Proof.
  cbv zeta. split_and!.
  - pose proof (attempts_requests net start (seq 0 max_retries) w) as [H _].
    unfold get_item_listings_page. simpl in *. lia.
  - intros attempt range b H. rewrite attempts_cons, H. done.
  - intros attempt range H Ha. rewrite attempts_request_error by done.
    by rewrite on_request_exception_retry.
  - apply get_item_listings_page_rate_limited.
  - apply get_item_listings_page_request_errors.
  - intros status_code data H Hs Hr Hd.
    unfold get_item_listings_page, max_retries. cbn [seq].
    rewrite attempts_cons, H. cbv zeta.
    destruct (Z.eqb_spec status_code 429); [done|]. by rewrite Hr, Hd.
  - intros i status_code data Hi Hj H Hs Hr Hd.
    assert (Hend : ∀ attempt range w0,
               requests w0 = (requests w + i)%nat →
               attempts net start (attempt :: range) w0 =
               (Returned (Some data),
                {| requests := requests w + i + 1; slept := slept w0 |})).
    { intros attempt range w0 E. rewrite attempts_cons, E, H. cbv zeta.
      destruct (Z.eqb_spec status_code 429); [done|]. rewrite Hr, Hd.
      cbn [negb]. do 2 f_equal. lia. }
    unfold get_item_listings_page, max_retries. cbn [seq].
    destruct i as [|[|[|i]]]; [| | |lia].
    + rewrite Hend by lia. cbn [seq map]. by rewrite app_nil_r.
    + pose proof (Hj 0%nat ltac:(lia)) as H0. rewrite Nat.add_0_r in H0.
      rewrite attempts_retried by (done || lia).
      rewrite Hend by (cbn [requests]; lia).
      cbn [seq map slept]. by rewrite Nat.add_0_r.
    + pose proof (Hj 0%nat ltac:(lia)) as H0. rewrite Nat.add_0_r in H0.
      pose proof (Hj 1%nat ltac:(lia)) as H1.
      rewrite attempts_retried by (done || lia).
      rewrite attempts_retried
        by (cbn [requests];
            (by replace (S (requests w)) with (requests w + 1)%nat by lia)
            || lia).
      rewrite Hend by (cbn [requests]; lia).
      cbn [seq map slept requests]. rewrite Nat.add_0_r, <- app_assoc.
      by replace (S (requests w)) with (requests w + 1)%nat by lia.
  - intros status_code H Hs Hr.
    unfold get_item_listings_page, max_retries. cbn [seq].
    rewrite attempts_cons, H. cbv zeta.
    destruct (Z.eqb_spec status_code 429); [done|]. by rewrite Hr.
  - intros e He. unfold get_item_listings_page in He.
    apply attempts_raised in He as (i & s & Hi & Hnet).
    rewrite length_seq in Hi. by exists i, s.
  - vm_compute. reflexivity.
  - vm_compute. reflexivity.
Qed.

Lemma get_item_listings_page_retries_witness :
  get_item_listings_page (fun _ _ => Response 429 BadJson) 0 (World 0 []) =
  (Returned None, {| requests := 3; slept := [60; 120; 180] |}).
Proof.
  apply (get_item_listings_page_retries
           (fun _ _ => Response 429 BadJson) 0 (World 0 [])).
  intros i _. exists BadJson. reflexivity.
Defined.



(** Claim C10, as amended.  An entry whose markup-stripped text contains
    "unlocked" with the last five letters in lower case (the first three in
    any case) is skipped by [extract_unlocked_styles]: the result is the
    one obtained without the entry.  So ["Style 6 Unlocked"] gives no style. *)
Theorem extract_unlocked_styles_skips_unlocked
    (db : unicode_db) (pre post : list description) (d : description) (m : str) :
  m ∈ unlocked_spellings →
  substring m (clean_of d) →
  extract_unlocked_styles db (pre ++ d :: post)
  = extract_unlocked_styles db (pre ++ post)
  ∧ extract_unlocked_styles basic_db [text "Style 6 Unlocked"] = [].
Proof.
  intros Hm Hs. split; [|vm_compute; reflexivity].
  unfold extract_unlocked_styles. f_equal.
  apply styles_loop_skip. by eapply unlocked_has_locked_marker.
Qed.

Lemma extract_unlocked_styles_skips_unlocked_witness :
  extract_unlocked_styles basic_db
    ([text "Style 5"] ++ text "<b>Style 6 Unlocked</b>" :: [text "Style 7"])
  = extract_unlocked_styles basic_db ([text "Style 5"] ++ [text "Style 7"])
  ∧ extract_unlocked_styles basic_db [text "Style 6 Unlocked"] = [].
Proof.
  apply (extract_unlocked_styles_skips_unlocked basic_db
           [text "Style 5"] [text "Style 7"] (text "<b>Style 6 Unlocked</b>")
           (utf8 "Unlocked")).
  - vm_compute. repeat constructor.
  - exists (utf8 "Style 6 "), []. vm_compute. reflexivity.
Defined.

(** Claim C10 as stated fails: ["Style 6 UNLOCKED"] contains "unlocked" in
    some letter case and still gives its number. *)
Lemma extract_unlocked_styles_upper_case_unlocked :
  str_in (map basic_lower_char (utf8 "Unlocked"))
         (map basic_lower_char (clean_of (text "Style 6 UNLOCKED"))) = true
  ∧ extract_unlocked_styles basic_db [text "Style 6 UNLOCKED"] = [6].
Proof. vm_compute. done. Qed.

(* ===================================================================== *)
(** * Further properties *)
(* ===================================================================== *)

(* ===================================================================== *)
(** ** Markup and white space *)
(* ===================================================================== *)

(** Arithmetic on lengths of texts. *)
Ltac len_lia := unfold str, char in *; cbn [length] in *; lia.

Lemma is_gt_true (c : char) : is_gt c = true ↔ c = chr ">".
Proof. apply N.eqb_eq. Qed.

Lemma after_gt_spec (s r : str) :
  after_gt s = Some r ↔
  ∃ body, s = body ++ chr ">" :: r ∧ Forall (fun c => is_gt c = false) body.
Proof.
  revert r. induction s as [|c s IH]; intros r; simpl.
  - split; [done|]. intros (body & H & _). by destruct body.
  - destruct (is_gt c) eqn:E.
    + pose proof E as ->%is_gt_true. split.
      * intros [= ->]. exists []. by split.
      * intros (body & H & Hb). destruct body as [|b body].
        -- by injection H as ->.
        -- injection H as <- _. apply Forall_cons in Hb as [Hb _].
           congruence.
    + rewrite IH. split.
      * intros (body & -> & Hb). exists (c :: body). split; [done|].
        by constructor.
      * intros (body & H & Hb). destruct body as [|b body].
        -- injection H as -> _. by rewrite (proj2 (is_gt_true _)) in E.
        -- injection H as <- ->. apply Forall_cons in Hb as [_ Hb]. eauto.
Qed.

Lemma after_gt_length (s r : str) :
  after_gt s = Some r → (length r < length s)%nat.
Proof.
  intros (body & -> & _)%after_gt_spec. rewrite length_app. len_lia.
Qed.

Lemma after_gt_None (s : str) :
  after_gt s = None ↔ Forall (fun c => is_gt c = false) s.
Proof.
  induction s as [|c s IH]; simpl; [by split|].
  destruct (is_gt c) eqn:E.
  - split; [done|]. intros [H _]%Forall_cons. congruence.
  - rewrite IH. split; [by constructor|]. by intros [_ H]%Forall_cons.
Qed.

Lemma after_gt_app (s r x : str) :
  after_gt s = Some r → after_gt (s ++ x) = Some (r ++ x).
Proof.
  induction s as [|c s IH]; simpl; [done|].
  destruct (is_gt c); [by intros [= ->]|done].
Qed.

Lemma tag_at_length (s r : str) :
  tag_at s = Some r → (length r + 2 < length s)%nat.
Proof.
  destruct s as [|c [|c1 s2]]; simpl; try done.
  destruct (_ && _); [|done]. intros H%after_gt_length. len_lia.
Qed.

Lemma tag_at_app (s r x : str) :
  tag_at s = Some r → tag_at (s ++ x) = Some (r ++ x).
Proof.
  destruct s as [|c [|c1 s2]]; simpl; try done.
  destruct (_ && _); [|done]. apply after_gt_app.
Qed.

(** The greedy run of [[^>]+] followed by [>] ends at the first [>]. *)
Lemma star_cls_not_gt (s : str) (g : option str) :
  star_cls (fun c => negb (is_gt c)) s
    (fun s'' =>
       rmatch (lit_str [chr ">"]) s'' g
         (fun s' g' => Some (MatchObj s' g')))
  = (fun r => MatchObj r g) <$> after_gt s.
Proof.
  induction s as [|c s IH]; [done|]. cbn [star_cls after_gt].
  rewrite IH, rmatch_lit_str. cbn [startswith length drop].
  rewrite andb_true_r, drop_0.
  destruct (is_gt c) eqn:E; cbn [negb].
  - apply is_gt_true in E as ->. by rewrite N.eqb_refl.
  - unfold is_gt in E. rewrite N.eqb_sym in E. rewrite E.
    by destruct (after_gt s).
Qed.

(** [re.match] of the tag pattern. *)
Lemma re_match_tag (s : str) :
  re_match tag_re s = (fun r => MatchObj r None) <$> tag_at s.
Proof.
  unfold re_match, tag_re, lit.
  change (utf8 "<") with [chr "<"]. change (utf8 ">") with [chr ">"].
  change (cat [lit_str [chr "<"]; Plus (fun c => negb (is_gt c));
               lit_str [chr ">"]])
    with (Cat (lit_str [chr "<"])
            (Cat (Plus (fun c => negb (is_gt c)))
               (Cat (lit_str [chr ">"]) Eps))).
  cbn [rmatch]. rewrite rmatch_lit_str.
  destruct s as [|c s1]; [done|]. cbn [startswith length drop].
  rewrite andb_true_r, drop_0. unfold tag_at.
  rewrite (N.eqb_sym (chr "<") c).
  destruct (c =? chr "<")%N; cbn [andb]; [|by destruct s1].
  destruct s1 as [|c1 s2]; [done|].
  destruct (negb (is_gt c1)); [|done].
  apply star_cls_not_gt.
Qed.

Lemma re_sub_empty_from_drop (r : regex) (n : nat) (s : str) :
  re_sub_empty_from r n s = re_sub_empty_from r 0 (drop n s).
Proof.
  revert n. induction s as [|c s IH]; intros [|n]; try done.
  cbn [re_sub_empty_from drop]. apply IH.
Qed.

(** One step of [re.sub(r'<[^>]+>', '', s)]: a tag at the start is dropped
    whole, any other character is kept. *)
Lemma re_sub_tag_cons (c : char) (s : str) :
  re_sub_empty tag_re (c :: s) =
  match tag_at (c :: s) with
  | Some rest => re_sub_empty tag_re rest
  | None => c :: re_sub_empty tag_re s
  end.
Proof.
  unfold re_sub_empty. cbn [re_sub_empty_from]. rewrite re_match_tag.
  destruct (tag_at (c :: s)) as [rest|] eqn:E; [|done].
  change ((fun r => MatchObj r None) <$> Some rest)
    with (Some (MatchObj rest None)).
  cbn [m_rest].
  destruct s as [|c1 s2]; [done|]. unfold tag_at in E.
  destruct (_ && _); [|done].
  apply after_gt_spec in E as (body & -> & _).
  destruct (_ - _)%nat as [|n] eqn:En.
  { cbn [length] in En. rewrite length_app in En. len_lia. }
  assert (n = S (length (body ++ [chr ">"]))) as ->.
  { cbn [length] in En. rewrite !length_app in *. len_lia. }
  rewrite re_sub_empty_from_drop. f_equal. cbn [drop].
  replace (body ++ chr ">" :: rest) with ((body ++ [chr ">"]) ++ rest)
    by (by rewrite <- app_assoc).
  apply drop_app_length.
Qed.

Lemma re_sub_tag_nil : re_sub_empty tag_re [] = [].
Proof. done. Qed.

(** A text without [>] holds no tag and is left as it is. *)
Lemma re_sub_tag_no_gt (s : str) :
  Forall (fun c => is_gt c = false) s → re_sub_empty tag_re s = s.
Proof.
  induction 1 as [|c s Hc Hs IH]; [done|].
  rewrite re_sub_tag_cons.
  assert (tag_at (c :: s) = None) as ->; [|by rewrite IH].
  destruct s as [|c1 s2]; [done|]. simpl.
  destruct (_ && _); [|done]. apply after_gt_None.
  by apply Forall_cons in Hs as [_ ?].
Qed.

Lemma re_search_tag_cons (c : char) (s : str) :
  re_search tag_re (c :: s) = None ↔
  tag_at (c :: s) = None ∧ re_search tag_re s = None.
Proof.
  cbn [re_search]. rewrite re_match_tag.
  destruct (tag_at (c :: s)); cbn [fmap option_map]; split; try done.
  - by intros [? _].
  - by intros [_ ?].
Qed.

Lemma re_search_tag_nil : re_search tag_re [] = None.
Proof. done. Qed.

(** What [re.sub] leaves holds no tag. *)
Lemma re_sub_tag_no_tag (s : str) :
  re_search tag_re (re_sub_empty tag_re s) = None.
Proof.
  remember (length s) as n eqn:Hn. revert s Hn.
  induction n as [n IH] using lt_wf_ind. intros s ->.
  destruct s as [|c s]; [done|]. rewrite re_sub_tag_cons.
  destruct (tag_at _) as [rest|] eqn:E.
  - apply (IH (length rest)); [|done].
    apply tag_at_length in E. len_lia.
  - assert (Hs : re_search tag_re (re_sub_empty tag_re s) = None)
      by (apply (IH (length s)); [len_lia|done]).
    apply re_search_tag_cons. split; [|done].
    destruct s as [|c1 s2]; [done|]. cbn [tag_at] in E.
    destruct ((c =? chr "<")%N) eqn:Ec; cbn [andb] in E.
    + destruct (is_gt c1) eqn:E1; cbn [negb] in E.
      * rewrite re_sub_tag_cons.
        assert (tag_at (c1 :: s2) = None) as Ht.
        { apply is_gt_true in E1 as ->. by destruct s2. }
        unfold str, char in *. rewrite Ht.
        cbn [tag_at]. rewrite Ec, E1. done.
      * rewrite re_sub_tag_no_gt.
        -- cbn [tag_at]. by rewrite Ec, E1.
        -- constructor; [done|]. by apply after_gt_None.
    + destruct (re_sub_empty tag_re (c1 :: s2)) as [|a [|b t]];
        cbn [tag_at]; rewrite ?Ec; done.
Qed.

(** A text that holds no tag holds none in any part of it. *)
Lemma re_search_tag_infix (pre t post : str) :
  re_search tag_re (pre ++ t ++ post) = None → re_search tag_re t = None.
Proof.
  induction pre as [|c pre IH].
  - cbn [app]. induction t as [|c t IH]; [done|].
    cbn [app]. rewrite !re_search_tag_cons. intros [H1 H2]. split; [|auto].
    destruct (tag_at (c :: t)) as [r|] eqn:E; [|done].
    apply (tag_at_app _ _ post) in E. cbn [app] in E.
    unfold str, char in *. congruence.
  - cbn [app]. rewrite re_search_tag_cons. intros [_ H]. auto.
Qed.

Lemma lstrip_spec (s : str) :
  ∃ ws, s = ws ++ lstrip s ∧ Forall (fun c => is_space c = true) ws
        ∧ ∀ c r, lstrip s = c :: r → is_space c = false.
Proof.
  induction s as [|c s (ws & Hs & Hws & Hc)]; simpl.
  - exists []. by split_and!.
  - destruct (is_space c) eqn:E.
    + exists (c :: ws). split_and!; [by rewrite Hs at 1| by constructor|done].
    + exists []. split_and!; [done..|]. by intros ? ? [= <- _].
Qed.

Lemma rstrip_spec (s : str) :
  ∃ ws, s = rstrip s ++ ws ∧ Forall (fun c => is_space c = true) ws
        ∧ ∀ p c, rstrip s = p ++ [c] → is_space c = false.
Proof.
  unfold rstrip. destruct (lstrip_spec (rev s)) as (ws & Hs & Hws & Hc).
  exists (rev ws). split_and!.
  - rewrite <- rev_app_distr, <- Hs. by rewrite rev_involutive.
  - by apply Forall_rev.
  - intros p c H. apply (Hc c (rev p)).
    rewrite <- (rev_involutive (lstrip (rev s))), H.
    by rewrite rev_app_distr.
Qed.

(** [str.strip()] takes white space off both ends and nothing else. *)
Lemma strip_spec (s : str) :
  (∃ ws1 ws2, s = ws1 ++ strip s ++ ws2
              ∧ Forall (fun c => is_space c = true) ws1
              ∧ Forall (fun c => is_space c = true) ws2)
  ∧ trimmed (strip s).
Proof.
  unfold strip.
  destruct (lstrip_spec s) as (ws1 & Hs & Hws1 & Hc1).
  destruct (rstrip_spec (lstrip s)) as (ws2 & Hl & Hws2 & Hc2).
  split.
  - exists ws1, ws2. split_and!; [|done..]. by rewrite <- Hl.
  - split; [|done]. intros c r Hr.
    destruct (lstrip s) as [|c' l] eqn:El.
    + by destruct (rstrip []) eqn:E.
    + rewrite Hr in Hl. injection Hl as -> _. by apply (Hc1 c l).
Qed.

Lemma clean_markup_no_tag (value : str) :
  re_search tag_re (clean_markup value) = None.
Proof.
  unfold clean_markup.
  destruct (strip_spec (re_sub_empty tag_re value))
    as [(ws1 & ws2 & H & _ & _) _].
  apply (re_search_tag_infix ws1 _ ws2). rewrite <- H.
  apply re_sub_tag_no_tag.
Qed.

Lemma tag_at_spec (s r : str) :
  tag_at s = Some r ↔
  ∃ body, s = chr "<" :: body ++ chr ">" :: r
          ∧ body ≠ [] ∧ Forall (fun c => is_gt c = false) body.
Proof.
  destruct s as [|c [|c1 s2]]; cbn [tag_at].
  - split; [done|]. by intros (? & ? & _).
  - split; [done|]. intros ([|? ?] & ? & ? & _); [done|].
    by destruct l.
  - destruct (N.eqb_spec c (chr "<")) as [->|Hc]; cbn [andb].
    + destruct (is_gt c1) eqn:E1; cbn [negb].
      * split; [done|]. intros ([|b body] & H & Hne & Hb); [done|].
        injection H as <- _. apply Forall_cons in Hb as [Hb _]. congruence.
      * rewrite after_gt_spec. split.
        -- intros (body & -> & Hb). exists (c1 :: body).
           split_and!; [done..|]. by constructor.
        -- intros ([|b body] & H & Hne & Hb); [done|].
           injection H as <- ->. apply Forall_cons in Hb as [_ Hb]. eauto.
    + split; [done|]. intros (body & H & _). by injection H as -> _.
Qed.

Lemma re_search_tag_None (s : str) :
  re_search tag_re s = None ↔ ¬ has_tag s.
Proof.
  split.
  - intros Hn (pre & body & post & -> & Hne & Hb).
    assert (Hs : is_Some (re_search tag_re
                            (pre ++ chr "<" :: body ++ chr ">" :: post))).
    { apply re_search_is_Some. exists pre, (chr "<" :: body ++ chr ">" :: post).
      split; [done|]. rewrite re_match_tag.
      assert (tag_at (chr "<" :: body ++ chr ">" :: post) = Some post) as ->
        by (apply tag_at_spec; eauto).
      by eexists. }
    rewrite Hn in Hs. by destruct Hs.
  - intros Hn. destruct (re_search tag_re s) as [m|] eqn:E; [|done].
    destruct Hn.
    assert (Hs : is_Some (re_search tag_re s)) by (rewrite E; eauto).
    apply re_search_is_Some in Hs as (pre & post & -> & Hm).
    rewrite re_match_tag in Hm.
    destruct (tag_at post) as [r|] eqn:Et; [|by destruct Hm].
    apply tag_at_spec in Et as (body & -> & Hne & Hb).
    by exists pre, body, r.
Qed.

Lemma truthy_true {T} (l : list T) : truthy l = true ↔ l ≠ [].
Proof. by destruct l. Qed.

(** The texts the two strategies collect, and in which order. *)
Lemma extract_gems_sublist (ds : list description) :
  extract_gems ds `sublist_of` map clean_of ds.
Proof.
  unfold extract_gems.
  rewrite extract_gems_from_descriptions_spec, extract_socket_gems_spec.
  assert (Ha : map clean_of (List.filter gem_entry ds)
               `sublist_of` map clean_of ds).
  { apply fmap_sublist. induction ds as [|d ds IH]; simpl; [constructor|].
    destruct (gem_entry d); by constructor. }
  destruct (truthy _); [done|].
  unfold gems_of_socket_section.
  assert (Hf : ∀ l : list str, List.filter socket_gem l `sublist_of` l).
  { induction l as [|x l IH]; simpl; [constructor|].
    destruct (socket_gem x); by constructor. }
  etrans; [apply Hf|]. apply fmap_sublist. clear Ha.
  induction ds as [|d ds IH]; simpl; [constructor|].
  destruct (opens_socket_section d); [reflexivity|]. by apply sublist_cons.
Qed.

Lemma extract_gems_nonempty (ds : list description) (g : str) :
  g ∈ extract_gems ds → g ≠ [] ∧ ∃ d, d ∈ ds ∧ g = clean_of d.
Proof.
  unfold extract_gems.
  rewrite extract_gems_from_descriptions_spec, extract_socket_gems_spec.
  destruct (truthy _).
  - intros (d & -> & Hd)%list_elem_of_fmap.
    apply list_elem_of_In, filter_In in Hd as [Hd Hg].
    split; [|exists d; by rewrite list_elem_of_In].
    unfold gem_entry in Hg. apply andb_true_iff in Hg as [Hg _].
    by apply truthy_true.
  - unfold gems_of_socket_section.
    intros [Hg Hs]%list_elem_of_In%filter_In.
    unfold socket_gem in Hs. apply andb_true_iff in Hs as [Hs _].
    split; [by apply truthy_true|].
    apply list_elem_of_In, list_elem_of_fmap in Hg as (d & -> & Hd).
    exists d. split; [|done]. revert Hd.
    induction ds as [|d' ds IH]; simpl; [done|].
    destruct (opens_socket_section d'); [done|]. intros H. right. auto.
Qed.

(** The text kept of a value holds no markup tag and neither starts nor
    ends with white space; a value without [>] is only trimmed. *)
Theorem clean_markup_tagless_trimmed (value : str) :
  ¬ has_tag (clean_markup value)
  ∧ trimmed (clean_markup value)
  ∧ (Forall (fun c => is_gt c = false) value →
     clean_markup value = strip value).
Proof.
  split_and!.
  - apply re_search_tag_None, clean_markup_no_tag.
  - unfold clean_markup. apply strip_spec.
  - intros H. unfold clean_markup. by rewrite re_sub_tag_no_gt.
Qed.

(** Every gem string is the text of an entry; it is not empty, has no
    white space at either end and holds no markup tag; the gems come in
    the order of the entries. *)
Theorem extract_gems_clean_texts (ds : list description) :
  (∀ g, g ∈ extract_gems ds →
        (∃ d, d ∈ ds ∧ g = clean_of d)
        ∧ g ≠ [] ∧ trimmed g ∧ ¬ has_tag g)
  ∧ extract_gems ds `sublist_of` map clean_of ds.
Proof.
  split; [|apply extract_gems_sublist].
  intros g (Hne & d & Hd & ->)%extract_gems_nonempty.
  assert (Ht : trimmed (clean_of d)) by apply strip_spec.
  assert (Hn : ¬ has_tag (clean_of d))
    by apply re_search_tag_None, clean_markup_no_tag.
  split_and!; eauto.
Qed.

(* ===================================================================== *)
(** ** Styles: order, repetition, sign *)
(* ===================================================================== *)

Lemma elem_of_extract_unlocked_styles (db : unicode_db)
    (ds : list description) (n : Z) :
  n ∈ extract_unlocked_styles db ds ↔
  ∃ d, d ∈ ds ∧ ¬ has_locked_marker (clean_of d)
       ∧ first_match db (style_patterns db) (clean_of d) = Some n.
Proof.
  unfold extract_unlocked_styles.
  rewrite merge_sort_Permutation, elem_of_styles_loop.
  split; [|eauto]. intros [H|H]; [|done]. by apply elem_of_nil in H.
Qed.

Lemma extract_unlocked_styles_sorted (db : unicode_db)
    (ds : list description) :
  StronglySorted Z.lt (extract_unlocked_styles db ds).
Proof.
  unfold extract_unlocked_styles. apply strongly_sorted_lt.
  - apply StronglySorted_merge_sort; apply _.
  - rewrite merge_sort_Permutation. apply NoDup_styles_loop, NoDup_nil_2.
Qed.

(** A strictly ascending list is determined by its elements. *)
Lemma strongly_sorted_lt_unique (l k : list Z) :
  StronglySorted Z.lt l → StronglySorted Z.lt k →
  (∀ x, x ∈ l ↔ x ∈ k) → l = k.
Proof.
  intros Hl Hk H.
  assert (Hn : ∀ l, StronglySorted Z.lt l → NoDup l).
  { clear. induction 1 as [|x l Hs IH Hx]; [constructor|].
    constructor; [|done]. intros Hin.
    rewrite Forall_forall in Hx. specialize (Hx x Hin). lia. }
  apply (StronglySorted_unique_strong Z.lt); [|done..|].
  - intros x1 x2 _ _ ? ?. lia.
  - apply NoDup_Permutation; auto.
Qed.

Lemma py_int_nonneg (db : unicode_db) (s : str) :
  digit_values db → 0 ≤ py_int db s.
Proof.
  intros Hdb. unfold py_int.
  assert (H : ∀ acc, 0 ≤ acc →
            0 ≤ fold_left (fun acc c => 10 * acc + default 0 (decimal db c))
                  s acc); [|by apply H].
  induction s as [|c s IH]; intros acc Hacc; simpl; [done|].
  apply IH. destruct (decimal db c) as [v|] eqn:E; simpl; [|lia].
  apply Hdb in E. lia.
Qed.

Lemma first_match_nonneg (db : unicode_db) (rs : list regex) (s : str)
    (n : Z) :
  digit_values db → first_match db rs s = Some n → 0 ≤ n.
Proof.
  intros Hdb. induction rs as [|r rs IH]; simpl; [done|].
  destruct (re_search r s); [|done].
  intros [= <-]. by apply py_int_nonneg.
Qed.

Lemma StronglySorted_seqZ (m n : Z) : StronglySorted Z.lt (seqZ m n).
Proof.
  destruct (Z.le_gt_cases n 0) as [Hn|Hn].
  { rewrite seqZ_nil by done. constructor. }
  rewrite <- (Z2Nat.id n) by lia. generalize (Z.to_nat n) as k. clear.
  intros k. revert m. induction k as [|k IH]; intros m.
  - rewrite seqZ_nil by done. constructor.
  - rewrite seqZ_cons by lia. constructor.
    + replace (Z.pred (Z.of_nat (S k))) with (Z.of_nat k) by lia. apply IH.
    + apply Forall_forall. intros x Hx%elem_of_seqZ. lia.
Qed.

Lemma fold_max_shift (l : list Z) (a b : Z) :
  fold_left Z.max l (Z.max a b) = Z.max a (fold_left Z.max l b).
Proof.
  revert b. induction l as [|x l IH]; intros b; simpl; [done|].
  by rewrite <- Z.max_assoc, IH.
Qed.

Lemma fold_max_app (l k : list Z) :
  fold_left Z.max (l ++ k) 0
  = Z.max (fold_left Z.max l 0) (fold_left Z.max k 0).
Proof.
  rewrite fold_left_app.
  destruct (fold_max_spec l 0) as (_ & H & _). cbv zeta in H.
  rewrite <- fold_max_shift. f_equal. lia.
Qed.

Lemma ascii_digit_values : digit_values basic_db.
Proof.
  intros c v. simpl. unfold ascii_decimal.
  destruct (N.leb_spec 48 c), (N.leb_spec c 57); simpl; try done.
  intros [= <-]. lia.
Qed.

(** The styles found depend only on which texts the entries have: their
    order, their repetition and their markup do not matter. *)
Theorem extract_unlocked_styles_same_texts
    (db : unicode_db) (ds ds' : list description) :
  (∀ c, c ∈ map clean_of ds ↔ c ∈ map clean_of ds') →
  extract_unlocked_styles db ds = extract_unlocked_styles db ds'.
Proof.
  intros H.
  apply strongly_sorted_lt_unique; [apply extract_unlocked_styles_sorted..|].
  intros n. rewrite !elem_of_extract_unlocked_styles.
  assert (Hc : ∀ l : list description,
             (∃ d, d ∈ l ∧ ¬ has_locked_marker (clean_of d)
                   ∧ first_match db (style_patterns db) (clean_of d) = Some n)
             ↔ ∃ c, c ∈ map clean_of l ∧ ¬ has_locked_marker c
                    ∧ first_match db (style_patterns db) c = Some n).
  { intros l. split.
    - intros (d & Hd & ? & ?). exists (clean_of d). split; [|done].
      apply list_elem_of_fmap. eauto.
    - intros (c & (d & -> & Hd)%list_elem_of_fmap & ? & ?). eauto. }
  rewrite !Hc. by setoid_rewrite H.
Qed.

Lemma extract_unlocked_styles_same_texts_witness :
  extract_unlocked_styles basic_db
    [text "Style 2"; text "<b>Upgrade Style 9</b>"]
  = extract_unlocked_styles basic_db
      [text "Upgrade Style 9"; text " Style 2 "; text "Style 2"].
Proof.
  apply (extract_unlocked_styles_same_texts basic_db
           [text "Style 2"; text "<b>Upgrade Style 9</b>"]
           [text "Upgrade Style 9"; text " Style 2 "; text "Style 2"]).
  intros c. vm_compute (map clean_of _).
  rewrite !elem_of_cons, !elem_of_nil. tauto.
Defined.

(** The styles of two lists of entries put together are those of either
    list; so more entries never remove a style, and no entry gives
    none. *)
Theorem extract_unlocked_styles_app
    (db : unicode_db) (ds1 ds2 : list description) (n : Z) :
  (n ∈ extract_unlocked_styles db (ds1 ++ ds2) ↔
   n ∈ extract_unlocked_styles db ds1 ∨ n ∈ extract_unlocked_styles db ds2)
  ∧ extract_unlocked_styles db [] = [].
Proof.
  split; [|done]. rewrite !elem_of_extract_unlocked_styles. split.
  - intros (d & [Hd|Hd]%elem_of_app & ? & ?); eauto.
  - intros [(d & Hd & ? & ?)|(d & Hd & ? & ?)]; exists d;
      (split; [apply elem_of_app; eauto|done]).
Qed.

(** With digit values between 0 and 9 no style number is negative, neither
    among the styles read in descriptions nor among the styles of an
    item. *)
Theorem style_numbers_sign
    (db : unicode_db) (item_name : str) (d : asset_description) :
  digit_values db →
  (∀ ds, Forall (fun n => 0 ≤ n) (extract_unlocked_styles db ds))
  ∧ Forall (fun n => 0 ≤ n) (snd (describe_item db item_name d)).
Proof.
  intros Hdb.
  assert (Ht : ∀ ds, Forall (fun n => 0 ≤ n) (extract_unlocked_styles db ds)).
  { intros ds. apply Forall_forall. intros n.
    rewrite elem_of_extract_unlocked_styles. intros (d' & _ & _ & H).
    by eapply first_match_nonneg. }
  split; [done|].
  unfold describe_item. cbv zeta. cbn [snd].
  specialize (Ht (default [] (descriptions d))).
  destruct (extract_unlocked_styles db (default [] (descriptions d)))
    as [|n ns]; [|done].
  cbn [truthy]. cbv iota.
  destruct (get_max_style_from_tags db (default [] (tags d))) as [K|]; [|done].
  case_bool_decide; [|done].
  apply Forall_forall. intros n Hn%elem_of_seqZ. lia.
Qed.

Lemma style_numbers_sign_witness :
  (∀ ds, Forall (fun n => 0 ≤ n) (extract_unlocked_styles basic_db ds))
  ∧ Forall (fun n => 0 ≤ n)
      (snd (describe_item basic_db (utf8 "Onibi")
              (AssetDescription None (Some [text "Style 0"; text "Style 12"])
                 None false))).
Proof.
  apply (style_numbers_sign basic_db (utf8 "Onibi")
           (AssetDescription None (Some [text "Style 0"; text "Style 12"])
              None false)).
  intros c v. simpl. unfold ascii_decimal.
  destruct (N.leb_spec 48 c), (N.leb_spec c 57); simpl; try done.
  intros [= <-]. lia.
Defined.

(* ===================================================================== *)
(** ** Tags *)
(* ===================================================================== *)

Lemma tag_numbers_app (db : unicode_db) (ts1 ts2 : list tag) :
  tag_numbers db (ts1 ++ ts2) = tag_numbers db ts1 ++ tag_numbers db ts2.
Proof. unfold tag_numbers. apply flat_map_app. Qed.

(** The maximum over two lists of tags is the larger of their maxima; a
    tag with a non-empty localized name is read by that name alone. *)
Theorem get_max_style_from_tags_app
    (db : unicode_db) (ts1 ts2 : list tag) :
  get_max_style_from_tags db (ts1 ++ ts2)
  = option_max (get_max_style_from_tags db ts1)
               (get_max_style_from_tags db ts2)
  ∧ (∀ l name name', l ≠ [] →
       get_max_style_from_tags db (ts1 ++ Tag (Some l) name :: ts2)
       = get_max_style_from_tags db (ts1 ++ Tag (Some l) name' :: ts2)).
Proof.
  split.
  - unfold get_max_style_from_tags.
    rewrite !max_style_loop_spec, tag_numbers_app, fold_max_app.
    destruct (fold_max_spec (tag_numbers db ts1) 0) as (_ & H1 & _).
    destruct (fold_max_spec (tag_numbers db ts2) 0) as (_ & H2 & _).
    cbv zeta in H1, H2.
    set (a := fold_left Z.max (tag_numbers db ts1) 0) in *.
    set (b := fold_left Z.max (tag_numbers db ts2) 0) in *.
    destruct (Z.ltb_spec 0 a), (Z.ltb_spec 0 b), (Z.ltb_spec 0 (Z.max a b));
      simpl; try lia; try done; f_equal; lia.
  - intros l name name' Hl. unfold get_max_style_from_tags.
    rewrite !max_style_loop_spec, !tag_numbers_app.
    assert (E : ∀ n, found_in_tag db (Tag (Some l) n) =
                     found_in_tag db (Tag (Some l) None)).
    { intros n. unfold found_in_tag, tag_text. simpl. by destruct l. }
    change (tag_numbers db (Tag (Some l) name :: ts2))
      with (found_in_tag db (Tag (Some l) name) ++ tag_numbers db ts2).
    change (tag_numbers db (Tag (Some l) name' :: ts2))
      with (found_in_tag db (Tag (Some l) name') ++ tag_numbers db ts2).
    by rewrite (E name), (E name').
Qed.

(* ===================================================================== *)
(** ** One page: order, repeated scans, missing descriptions *)
(* ===================================================================== *)

Section PageMore.
Context (db : unicode_db) (assets : assets_map)
        (item_name : str) (desired_gems : option (list str))
        (desired_styles : option (list Z)) (page_num : Z).

Local Abbreviation process self max_price :=
  (process_listing db self assets item_name desired_gems desired_styles
                   max_price page_num).
Local Abbreviation page self max_price listinginfo :=
  (_process_page_listings db self listinginfo assets item_name desired_gems
                          desired_styles max_price page_num).

Lemma process_listing_kept_page (self : parser) (max_price : Q)
    (listing_id : str) (l : listing) (it : item) :
  snd (process self max_price (listing_id, l)) = Keep it →
  it_page it = page_num ∧ it_listing_id it = listing_id.
Proof.
  rewrite process_listing_outcome.
  case_bool_decide; [done|]. destruct (over_max_price _ _); [done|].
  destruct (listing_attrs db self assets item_name l) as [[n g] s].
  destruct (given desired_gems && _); [done|].
  destruct (given desired_styles && _); [done|].
  by intros [= <-].
Qed.

(** Among listings within the price bound the bound plays no part. *)
Lemma process_listing_max_price (self : parser) (m m' : Q)
    (listing_id : str) (l : listing) :
  over_max_price m (usd_of_cents (price_cents_of l)) = false →
  over_max_price m' (usd_of_cents (price_cents_of l)) = false →
  snd (process self m (listing_id, l)) = snd (process self m' (listing_id, l)).
Proof.
  intros H H'. rewrite !process_listing_outcome. by rewrite H, H'.
Qed.

(** Marking an identifier changes what becomes of the listings that carry
    it, and of no other. *)
Lemma process_listing_marked (self : parser) (max_price : Q)
    (id listing_id : str) (l : listing) :
  snd (process (mark_as_notified self id) max_price (listing_id, l)) =
  if bool_decide (listing_id = id) then SkipNotified
  else snd (process self max_price (listing_id, l)).
Proof.
  rewrite !process_listing_outcome.
  change (listing_attrs db (mark_as_notified self id) assets item_name l)
    with (listing_attrs db self assets item_name l).
  cbn [mark_as_notified notified_listings].
  destruct (decide (listing_id = id)) as [->|Hne].
  - rewrite (bool_decide_eq_true_2 (id = id)) by done.
    rewrite bool_decide_eq_true_2; [done|].
    apply elem_of_union. right. by apply elem_of_singleton.
  - rewrite (bool_decide_eq_false_2 (listing_id = id)) by done.
    rewrite (bool_decide_ext (listing_id ∈ notified_listings self ∪ {[id]})
               (listing_id ∈ notified_listings self)); [done|].
    rewrite elem_of_union, elem_of_singleton. tauto.
Qed.

Lemma gems_match_nil (desired : list str) : gems_match db desired [] = false.
Proof. unfold gems_match. by induction desired. Qed.

Lemma has_desired_style_nil (desired : list Z) :
  has_desired_style desired [] = false.
Proof.
  induction desired as [|s l IH]; [done|].
  unfold has_desired_style in *. cbn [existsb]. rewrite IH.
  by rewrite bool_decide_eq_false_2 by apply not_elem_of_nil.
Qed.

(** The identifiers of the items of a page, in the order of its listings. *)
Lemma page_ids_sublist (self : parser) (max_price : Q)
    (listinginfo : list (str * listing)) :
  map it_listing_id (page self max_price listinginfo)
    `sublist_of` map fst listinginfo.
Proof.
  rewrite process_page_listings_spec.
  induction listinginfo as [|[listing_id l] li IH]; [constructor|].
  cbn [omap list_omap map].
  destruct (snd (process self max_price (listing_id, l)))
    as [| | | |it] eqn:E; cbn [kept]; try by constructor.
  apply process_listing_kept_page in E as [_ Hid].
  cbn [map]. rewrite Hid. by constructor.
Qed.

(** A parser that has notified of more identifiers gives, for a page, what
    the other gives without the items of these identifiers. *)
Lemma page_notified_more (self self' : parser) (D : list str) (max_price : Q)
    (listinginfo : list (str * listing)) :
  app_id self' = app_id self →
  notified_listings self' = notified_listings self ∪ list_to_set D →
  page self' max_price listinginfo
  = List.filter (fun it => negb (bool_decide (it_listing_id it ∈ D)))
                (page self max_price listinginfo).
Proof.
  intros Ha Hn. rewrite !process_page_listings_spec.
  induction listinginfo as [|[listing_id l] li IH]; [done|].
  cbn [omap list_omap].
  assert (E' : snd (process self' max_price (listing_id, l)) =
               if bool_decide (listing_id ∈ D) then SkipNotified
               else snd (process self max_price (listing_id, l))).
  { rewrite !process_listing_outcome.
    assert (listing_attrs db self' assets item_name l
            = listing_attrs db self assets item_name l) as ->.
    { unfold listing_attrs, find_item_desc. by rewrite Ha. }
    rewrite Hn. destruct (decide (listing_id ∈ D)) as [Hd|Hd].
    - rewrite (bool_decide_eq_true_2 (listing_id ∈ D)) by done.
      rewrite bool_decide_eq_true_2; [done|].
      apply elem_of_union. right. by apply elem_of_list_to_set.
    - rewrite (bool_decide_eq_false_2 (listing_id ∈ D)) by done.
      rewrite (bool_decide_ext
                 (listing_id ∈ notified_listings self ∪ list_to_set D)
                 (listing_id ∈ notified_listings self)); [done|].
      rewrite elem_of_union, elem_of_list_to_set. tauto. }
  rewrite E'.
  destruct (snd (process self max_price (listing_id, l)))
    as [| | | |it] eqn:E; cbn [kept];
    try (by case_bool_decide).
  apply process_listing_kept_page in E as [_ Hid].
  cbn [List.filter]. rewrite Hid.
  case_bool_decide; cbn [kept negb]; [done|]. by f_equal.
Qed.

(** The items of a page come in the order of its listings, one at most for
    each, and carry the number of the page. *)
Theorem process_page_listings_in_order (self : parser) (max_price : Q)
    (listinginfo : list (str * listing)) :
  map it_listing_id (page self max_price listinginfo)
    `sublist_of` map fst listinginfo
  ∧ Forall (fun it => it_page it = page_num) (page self max_price listinginfo)
  ∧ (length (page self max_price listinginfo) ≤ length listinginfo)%nat.
Proof.
  pose proof (page_ids_sublist self max_price listinginfo) as Hs.
  split_and!; [done| |].
  - apply Forall_forall. intros it.
    rewrite process_page_listings_spec, list_elem_of_omap.
    intros ([listing_id l] & _ & Hk).
    destruct (snd (process self max_price (listing_id, l)))
      as [| | | |it'] eqn:E; try done.
    injection Hk as ->. by apply process_listing_kept_page in E as [? _].
  - apply sublist_length in Hs. by rewrite !length_map in Hs.
Qed.

(** Once an identifier is marked as notified, the page gives what it gave
    before without the items of that identifier. *)
Theorem process_page_listings_after_mark (self : parser) (max_price : Q)
    (listinginfo : list (str * listing)) (id : str) :
  page (mark_as_notified self id) max_price listinginfo
  = List.filter (fun it => negb (bool_decide (it_listing_id it = id)))
                (page self max_price listinginfo).
Proof.
  rewrite !process_page_listings_spec.
  induction listinginfo as [|[listing_id l] li IH]; [done|].
  cbn [omap list_omap]. rewrite process_listing_marked.
  destruct (snd (process self max_price (listing_id, l)))
    as [| | | |it] eqn:E; cbn [kept];
    try (by case_bool_decide).
  apply process_listing_kept_page in E as [_ Hid].
  cbn [List.filter]. rewrite Hid.
  case_bool_decide; cbn [kept negb]; [done|]. by f_equal.
Qed.

(** Raising the maximum price, or lifting it, loses no item. *)
Theorem process_page_listings_max_price (self : parser) (m m' : Q)
    (listinginfo : list (str * listing)) (it : item) :
  (¬ (0 < m')%Q ∨ (0 < m)%Q ∧ (m <= m')%Q) →
  it ∈ page self m listinginfo → it ∈ page self m' listinginfo.
Proof.
  intros Hm. rewrite !process_page_listings_spec, !list_elem_of_omap.
  intros ([listing_id l] & He & Hk). exists (listing_id, l). split; [done|].
  destruct (snd (process self m (listing_id, l))) as [| | | |it'] eqn:E;
    try done.
  assert (Hs : is_Some (kept (snd (process self m (listing_id, l)))))
    by (rewrite E; eauto).
  apply process_listing_keep in Hs as (_ & Hp & _).
  assert (Hp' : price_ok m' (price_cents_of l)).
  { intros [H0 Hlt]. destruct Hm as [Hm|[Hm Hle]]; [done|].
    apply Hp. split; [done|].
    eapply Qle_lt_trans; [exact Hle|exact Hlt]. }
  apply over_max_price_false in Hp, Hp'.
  by rewrite <- (process_listing_max_price self m m'), E.
Qed.

(** A listing without asset description has the searched name and neither
    gems nor styles: it is kept when no gems and no styles are asked for,
    and rejected as soon as some are. *)
Theorem process_listing_without_description (self : parser) (max_price : Q)
    (listing_id : str) (l : listing) :
  find_item_desc self assets l = None →
  listing_id ∉ notified_listings self →
  price_ok max_price (price_cents_of l) →
  snd (process self max_price (listing_id, l)) =
  if given desired_gems then RejectGems
  else if given desired_styles then RejectStyles
  else Keep {| it_name := item_name;
               it_price_value := usd_of_cents (price_cents_of l);
               it_listing_id := listing_id;
               it_gems := [];
               it_styles := [];
               it_page := page_num |}.
Proof.
  intros Hd Hn Hp%over_max_price_false. rewrite process_listing_outcome.
  rewrite bool_decide_eq_false_2 by done. rewrite Hp.
  unfold listing_attrs. rewrite Hd.
  rewrite gems_match_nil, has_desired_style_nil. cbn [negb].
  by rewrite !andb_true_r.
Qed.
End PageMore.

Lemma process_page_listings_max_price_witness :
  Item (utf8 "Onibi") (usd_of_cents 1500) (utf8 "1") [] [] 1
  ∈ _process_page_listings basic_db (Parser 570 ∅)
      [(utf8 "1", Listing (Some 1000) (Some 500) None)] ∅ (utf8 "Onibi")
      None None 20 1.
Proof.
  apply (process_page_listings_max_price basic_db ∅ (utf8 "Onibi") None None
           1 (Parser 570 ∅) 15 20
           [(utf8 "1", Listing (Some 1000) (Some 500) None)]).
  - right. split; [reflexivity|]. unfold Qle. simpl. lia.
  - vm_compute. constructor.
Defined.

Lemma process_listing_without_description_witness :
  snd (process_listing basic_db (Parser 570 ∅) ∅ (utf8 "Onibi") None
         (Some [20; 21]) 15 1
         (utf8 "1", Listing (Some 1000) (Some 500) None))
  = RejectStyles.
Proof.
  apply (process_listing_without_description basic_db ∅ (utf8 "Onibi") None
           (Some [20; 21]) 1 (Parser 570 ∅) 15 (utf8 "1")
           (Listing (Some 1000) (Some 500) None)).
  - vm_compute. reflexivity.
  - apply not_elem_of_empty.
  - intros [_ H]. vm_compute in H. discriminate H.
Defined.

(** The styles of an item are strictly ascending; those read in the
    descriptions come before those of the tags, which are all the numbers
    from 1 to the maximum; an item has no styles only when neither gives
    any. *)
Theorem describe_item_styles (db : unicode_db) (item_name : str)
    (d : asset_description) :
  let styles := snd (describe_item db item_name d) in
  let from_text := extract_unlocked_styles db (default [] (descriptions d)) in
  let from_tags := get_max_style_from_tags db (default [] (tags d)) in
  StronglySorted Z.lt styles
  ∧ (from_text ≠ [] → styles = from_text)
  ∧ (from_text = [] →
     styles = match from_tags with Some K => seqZ 1 K | None => [] end)
  ∧ (styles = [] ↔ from_text = [] ∧ from_tags = None).
Proof.
  cbv zeta. unfold describe_item. cbv zeta. cbn [snd].
  pose proof (extract_unlocked_styles_sorted db (default [] (descriptions d)))
    as Hs.
  destruct (extract_unlocked_styles db (default [] (descriptions d)))
    as [|n ns] eqn:E.
  - cbn [truthy]. cbv iota.
    destruct (get_max_style_from_tags db (default [] (tags d))) as [K|] eqn:Em.
    + apply get_max_style_from_tags_Some in Em as (HK & _).
      rewrite bool_decide_eq_true_2 by lia.
      split_and!; [apply StronglySorted_seqZ|done..|].
      split; [|by intros [_ ?]]. intros H.
      rewrite seqZ_cons in H by lia. done.
    + split_and!; [constructor|done..].
  - change (truthy (n :: ns)) with true. cbv iota.
    split_and!; [done..|]. split; [done|]. by intros [? _].
Qed.

(* ===================================================================== *)
(** ** Requests and waits *)
(* ===================================================================== *)

(** The waits of the retry loop: one at most for each attempt, none longer
    than the rate-limit wait of its attempt; a page that is returned
    reports success. *)
Lemma attempts_waits (net : nat -> Z -> http_outcome) (start : Z)
    (range : list nat) (w : world) :
  let r := attempts net start range w in
  (∃ waits, slept (snd r) = slept w ++ waits
            ∧ (length waits ≤ length range)%nat
            ∧ foldr Z.add 0 waits
              ≤ foldr Z.add 0 (map (fun a => 60 * (Z.of_nat a + 1)) range)
            ∧ Forall (fun x => 10 ≤ x) waits)
  ∧ (range ≠ [] → (requests w < requests (snd r))%nat)
  ∧ ∀ data, fst r = Returned (Some data) → success data = true.
Proof.
  revert w. induction range as [|attempt range IH]; intros w.
  - cbn. split_and!; [|done..]. exists []. rewrite app_nil_r.
    split_and!; [done| |done|constructor]. done.
  - cbv zeta. rewrite attempts_cons. cbv zeta.
    set (w1 := {| requests := S (requests w); slept := slept w |}).
    assert (Hnext : ∀ x w2,
               requests w2 = S (requests w) → slept w2 = slept w ++ [x] →
               10 ≤ x ≤ 60 * (Z.of_nat attempt + 1) →
               let r := attempts net start range w2 in
               (∃ waits, slept (snd r) = slept w ++ waits
                  ∧ (length waits ≤ length (attempt :: range))%nat
                  ∧ foldr Z.add 0 waits
                    ≤ foldr Z.add 0
                        (map (fun a => 60 * (Z.of_nat a + 1))
                             (attempt :: range))
                  ∧ Forall (fun x => 10 ≤ x) waits)
               ∧ (attempt :: range ≠ [] → (requests w < requests (snd r))%nat)
               ∧ ∀ data, fst r = Returned (Some data) → success data = true).
    { intros x w2 Hr Hs Hx r.
      destruct (IH w2) as ((waits & Hw & Hl & Hsum & Hall) & Hreq & Hd).
      fold r in Hw, Hreq, Hd. split_and!; [|intros _|done].
      - exists (x :: waits). rewrite Hw, Hs, <- app_assoc.
        split_and!; [done|simpl; lia|simpl; lia|by constructor; [lia|]].
      - pose proof (attempts_requests net start range w2) as [Hle _].
        fold r in Hle. lia. }
    assert (Hstop : ∀ o : result (option page_data),
               (∀ data, o = Returned (Some data) → success data = true) →
               (∃ waits, slept (snd (o, w1)) = slept w ++ waits
                  ∧ (length waits ≤ length (attempt :: range))%nat
                  ∧ foldr Z.add 0 waits
                    ≤ foldr Z.add 0
                        (map (fun a => 60 * (Z.of_nat a + 1))
                             (attempt :: range))
                  ∧ Forall (fun x => 10 ≤ x) waits)
               ∧ (attempt :: range ≠ [] →
                  (requests w < requests (snd (o, w1)))%nat)
               ∧ ∀ data, fst (o, w1) = Returned (Some data) →
                         success data = true).
    { intros o Ho. split_and!; [|simpl; lia|done].
      exists []. rewrite app_nil_r. split_and!; [done|simpl; lia| |constructor].
      cbn [foldr map].
      assert (0 ≤ foldr Z.add 0
                    (map (fun a => 60 * (Z.of_nat a + 1)) range)); [|simpl; lia].
      clear. induction range; simpl; lia. }
    assert (Hexc : let r := on_request_exception attempt
                              (attempts net start range) w1 in
               (∃ waits, slept (snd r) = slept w ++ waits
                  ∧ (length waits ≤ length (attempt :: range))%nat
                  ∧ foldr Z.add 0 waits
                    ≤ foldr Z.add 0
                        (map (fun a => 60 * (Z.of_nat a + 1))
                             (attempt :: range))
                  ∧ Forall (fun x => 10 ≤ x) waits)
               ∧ (attempt :: range ≠ [] → (requests w < requests (snd r))%nat)
               ∧ ∀ data, fst r = Returned (Some data) → success data = true).
    { unfold on_request_exception, bind, sleep, ret.
      destruct (attempt <? max_retries - 1)%nat.
      - apply (Hnext 10); [done..|lia].
      - by apply (Hstop (Returned None)). }
    destruct (net (requests w) start) as [|status_code b]; [exact Hexc|].
    destruct (status_code =? 429).
    { apply (Hnext (60 * (Z.of_nat attempt + 1))); [done..|lia]. }
    destruct (raises_for_status status_code); [exact Hexc|].
    destruct b as [| |data];
      [exact Hexc|by apply (Hstop (Raised AttributeError))|].
    destruct (success data) eqn:Es; cbn [negb].
    + apply (Hstop (Returned (Some data))). by intros ? [= <-].
    + by apply (Hstop (Returned None)).
Qed.

(** A page fetch sends between one and three requests and waits 360
    seconds at most in all; what it returns reports success. *)
Theorem get_item_listings_page_bounds
    (net : nat -> Z -> http_outcome) (start : Z) (w : world) :
  let r := get_item_listings_page net start w in
  (requests w < requests (snd r) ≤ requests w + 3)%nat
  ∧ (∃ waits, slept (snd r) = slept w ++ waits
              ∧ (length waits ≤ 3)%nat
              ∧ foldr Z.add 0 waits ≤ 360
              ∧ Forall (fun x => 10 ≤ x) waits)
  ∧ ∀ data, fst r = Returned (Some data) → success data = true.
Proof.
  cbv zeta. unfold get_item_listings_page.
  pose proof (attempts_waits net start (seq 0 max_retries) w)
    as ((waits & Hw & Hl & Hsum & Hall) & Hreq & Hd).
  pose proof (attempts_requests net start (seq 0 max_retries) w) as [Hle _].
  cbv zeta in *. rewrite length_seq in Hle, Hl. unfold max_retries in *.
  split_and!; [by apply Hreq|lia| |done].
  exists waits. split_and!; [done|lia| |done].
  etrans; [exact Hsum|]. vm_compute. discriminate.
Qed.

(** A response with an error status other than 429 is retried as a
    network error is: three of them in a row, of either kind, end the
    fetch after three requests and two waits of 10 seconds. *)
Theorem get_item_listings_page_server_errors
    (net : nat -> Z -> http_outcome) (start : Z) (w : world) :
  (∀ i, (i < 3)%nat →
        net (requests w + i)%nat start = RequestException
        ∨ ∃ status_code b,
            net (requests w + i)%nat start = Response status_code b
            ∧ status_code ≠ 429 ∧ raises_for_status status_code = true) →
  get_item_listings_page net start w =
  (Returned None,
   {| requests := requests w + 3; slept := slept w ++ [10; 10] |}).
Proof.
  intros H.
  assert (Hstep : ∀ attempt range w0,
             (net (requests w0) start = RequestException
              ∨ ∃ status_code b,
                  net (requests w0) start = Response status_code b
                  ∧ status_code ≠ 429
                  ∧ raises_for_status status_code = true) →
             attempts net start (attempt :: range) w0 =
             on_request_exception attempt (attempts net start range)
               {| requests := S (requests w0); slept := slept w0 |}).
  { intros attempt range w0 [E|(s & b & E & Hs & Hr)];
      rewrite attempts_cons, E; cbv zeta; [done|].
    destruct (Z.eqb_spec s 429); [done|]. by rewrite Hr. }
  unfold get_item_listings_page, max_retries. cbn [seq].
  pose proof (H 0%nat ltac:(lia)) as H0.
  pose proof (H 1%nat ltac:(lia)) as H1.
  pose proof (H 2%nat ltac:(lia)) as H2.
  rewrite Nat.add_0_r in H0.
  rewrite Hstep by done. rewrite on_request_exception_retry by lia.
  rewrite Hstep
    by (cbn [requests]; by replace (S (requests w)) with (requests w + 1)%nat
          by lia).
  rewrite on_request_exception_retry by lia.
  rewrite Hstep
    by (cbn [requests];
        by replace (S (S (requests w))) with (requests w + 2)%nat by lia).
  rewrite on_request_exception_last by lia.
  cbn [requests slept]. rewrite <- !app_assoc. f_equal. f_equal. lia.
Qed.

Lemma get_item_listings_page_server_errors_witness :
  get_item_listings_page (fun _ _ => Response 503 BadJson) 0 (World 0 []) =
  (Returned None, {| requests := 3; slept := [10; 10] |}).
Proof.
  apply (get_item_listings_page_server_errors
           (fun _ _ => Response 503 BadJson) 0 (World 0 [])).
  intros i _. right. exists 503, BadJson. split_and!; [reflexivity|lia|reflexivity].
Defined.

(** [search_item] sends one request and never waits: the wait of 60
    seconds for the status 429 is never reached, that status being an error
    status.  It returns the body exactly when the status is no error and
    the body reports success, and it raises exactly on a body that is no
    object. *)
Theorem search_item_single_request
    (net : nat -> Z -> http_outcome) (w : world) :
  let r := search_item net w in
  snd r = {| requests := S (requests w); slept := slept w |}
  ∧ (∀ b, net (requests w) 0 = Response 429 b → fst r = Returned None)
  ∧ (∀ data, fst r = Returned (Some data) ↔
             ∃ status_code,
               net (requests w) 0 = Response status_code (Json data)
               ∧ raises_for_status status_code = false
               ∧ success data = true)
  ∧ ∀ e, fst r = Raised e ↔
         ∃ status_code,
           net (requests w) 0 = Response status_code NotObject
           ∧ raises_for_status status_code = false.
Proof.
  cbv zeta. unfold search_item, bind, session_get, ret, sleep.
  destruct (net (requests w) 0) as [|status_code b] eqn:E.
  { split_and!; [done..| |].
    - intros data. split; [done|]. by intros (? & ? & _).
    - intros e. split; [done|]. by intros (? & ? & _). }
  destruct (raises_for_status status_code) eqn:Er.
  { split_and!; [done..| |].
    - intros data. split; [done|].
      intros (s & [= -> ->] & Hr & _). congruence.
    - intros e. split; [done|]. intros (s & [= -> ->] & Hr). congruence. }
  assert ((status_code =? 429) = false) as ->.
  { apply Z.eqb_neq. intros ->. done. }
  split_and!.
  - destruct b as [| |data]; [done..|]. by destruct (success data).
  - intros b' [= -> _]. done.
  - intros data. destruct b as [| |data']; cbn.
    + split; [done|]. by intros (s & [=] & _).
    + split; [done|]. by intros (s & [=] & _).
    + destruct (success data') eqn:Es; cbn.
      * split.
        -- intros [= <-]. eauto.
        -- by intros (s & [= _ ->] & _).
      * split; [done|]. intros (s & [= _ ->] & _ & ?). congruence.
  - intros e. destruct b as [| |data']; cbn.
    + split; [done|]. by intros (s & [=] & _).
    + split; [|by destruct e]. intros _. eauto.
    + destruct (success data'); cbn; (split; [done|]);
        by intros (s & [=] & _).
Qed.

(* ===================================================================== *)
(** ** The scan: order of the pages, first page, cost *)
(* ===================================================================== *)

Lemma sum_waits_app (l1 l2 : list Z) :
  foldr Z.add 0 (l1 ++ l2) = foldr Z.add 0 l1 + foldr Z.add 0 l2.
Proof. induction l1 as [|x l1 IH]; simpl; lia. Qed.

(** What one page fetch costs. *)
Lemma get_item_listings_page_cost
    (net : nat -> Z -> http_outcome) (start : Z) (w : world) :
  let w1 := snd (get_item_listings_page net start w) in
  (requests w1 ≤ requests w + 3)%nat
  ∧ ∃ waits, slept w1 = slept w ++ waits ∧ foldr Z.add 0 waits ≤ 360.
Proof.
  cbv zeta. unfold get_item_listings_page.
  pose proof (attempts_waits net start (seq 0 max_retries) w)
    as ((waits & Hw & _ & Hsum & _) & _).
  pose proof (attempts_requests net start (seq 0 max_retries) w) as [Hle _].
  cbv zeta in *. rewrite length_seq in Hle. unfold max_retries in *.
  split; [lia|]. exists waits. split; [done|].
  etrans; [exact Hsum|]. vm_compute. discriminate.
Qed.

Lemma same_page_sorted (n : Z) (items : list item) :
  Forall (fun it => it_page it = n) items →
  StronglySorted Z.le (map it_page items).
Proof.
  induction 1 as [|it pg E Hall IHp]; cbn [map]; constructor; [done|].
  apply Forall_forall. intros x Hx.
  apply list_elem_of_fmap in Hx as (it2 & -> & Hx).
  rewrite Forall_forall in Hall. apply Hall in Hx. lia.
Qed.

Section ScanMore.
Context (net : nat -> Z -> http_outcome) (db : unicode_db) (self : parser)
        (item_name : str) (desired_gems : option (list str))
        (desired_styles : option (list Z)) (max_price : Q).

Local Abbreviation loop :=
  (parse_loop net db self item_name desired_gems desired_styles max_price).
Local Abbreviation page data start :=
  (_process_page_listings db self (default [] (listinginfo data))
     (default ∅ (assets data)) item_name desired_gems desired_styles
     max_price (start / PAGE_SIZE + 1)).
Local Abbreviation scan :=
  (parse_listings net db self item_name desired_gems desired_styles
                  max_price).

Lemma page_items_page (data : page_data) (start : Z) :
  Forall (fun it => it_page it = start / PAGE_SIZE + 1) (page data start).
Proof.
  apply Forall_forall. intros it.
  rewrite process_page_listings_spec, list_elem_of_omap.
  intros ([listing_id l] & _ & Hk).
  destruct (snd (process_listing _ _ _ _ _ _ _ _ _)) as [| | | |it'] eqn:E;
    try done.
  injection Hk as ->. by apply process_listing_kept_page in E as [? _].
Qed.

(** The loop appends to what it has found, page after page. *)
Lemma parse_loop_pages (lo : Z) (fuel : nat) :
  ∀ start seen found_items w r w',
    lo ≤ start / PAGE_SIZE + 1 →
    Forall (fun it => lo ≤ it_page it ≤ start / PAGE_SIZE) found_items →
    StronglySorted Z.le (map it_page found_items) →
    loop fuel start seen found_items w = (Some (Returned r), w') →
    StronglySorted Z.le (map it_page r)
    ∧ Forall (fun it => lo ≤ it_page it) r
    ∧ found_items `prefix_of` r.
Proof.
  induction fuel as [|fuel IH];
    intros start seen found_items w r w' Hlo Hf Hs; [done|].
  assert (Hstop : StronglySorted Z.le (map it_page found_items)
                  ∧ Forall (fun it => lo ≤ it_page it) found_items
                  ∧ found_items `prefix_of` found_items).
  { split_and!; [done| |done]. eapply Forall_impl; [exact Hf|].
    intros it ?. cbn beta in *. lia. }
  rewrite parse_loop_S.
  destruct (get_item_listings_page net start w) as [[[data|]|e] w1];
    [|by intros [= <- <-]|done].
  cbv zeta. destruct (bool_decide (seen = None) && _); [by intros [= <- <-]|].
  destruct (negb (truthy _)); [by intros [= <- <-]|].
  pose proof (page_items_page data start) as Hp.
  assert (Hs' : StronglySorted Z.le
                  (map it_page (found_items ++ page data start))).
  { rewrite map_app. apply StronglySorted_app_2; [|done|].
    - intros x1 x2 H1 H2.
      apply list_elem_of_fmap in H1 as (it1 & -> & H1).
      apply list_elem_of_fmap in H2 as (it2 & -> & H2).
      rewrite Forall_forall in Hf, Hp.
      apply Hf in H1. apply Hp in H2. lia.
    - by eapply same_page_sorted. }
  assert (Hdiv : (start + PAGE_SIZE) / PAGE_SIZE = start / PAGE_SIZE + 1).
  { unfold PAGE_SIZE. replace (start + 100) with (start + 1 * 100) by lia.
    by rewrite Z.div_add. }
  assert (Hf' : Forall (fun it => lo ≤ it_page it
                                  ≤ (start + PAGE_SIZE) / PAGE_SIZE)
                  (found_items ++ page data start)).
  { rewrite Hdiv. apply Forall_app. split.
    - eapply Forall_impl; [exact Hf|]. intros it ?. cbn beta in *. lia.
    - eapply Forall_impl; [exact Hp|]. intros it ?. cbn beta in *. lia. }
  destruct (_ <=? _).
  - intros [= <- <-]. split_and!; [done| |by apply prefix_app_r].
    eapply Forall_impl; [exact Hf'|]. intros it ?. cbn beta in *. lia.
  - intros Hl. apply IH in Hl as (? & ? & Hpre); [|lia|done..].
    split_and!; [done..|]. by eapply prefix_app_l.
Qed.

(** The cost of the loop once the total is known. *)
Lemma parse_loop_cost (total : Z) (fuel : nat) :
  ∀ start found_items w r w',
    start < total →
    loop fuel start (Some total) found_items w = (Some r, w') →
    let n := (total - start + PAGE_SIZE - 1) / PAGE_SIZE in
    (requests w' ≤ requests w + 3 * Z.to_nat n)%nat
    ∧ ∃ waits, slept w' = slept w ++ waits
               ∧ foldr Z.add 0 waits ≤ 363 * n - 3.
Proof.
  induction fuel as [|fuel IH]; intros start found_items w r w' Hlt; [done|].
  cbv zeta. unfold PAGE_SIZE in *.
  pose proof (get_item_listings_page_cost net start w)
    as (Hreq & waits & Hw & Hsum).
  cbv zeta in *.
  assert (1 ≤ (total - start + 100 - 1) / 100)
    by (Z.to_euclidean_division_equations; lia).
  rewrite parse_loop_S.
  destruct (get_item_listings_page net start w) as [[[data|]|e] w1];
    cbn [snd] in *; cbv zeta.
  2,3:(intros [= <- <-]; split; [lia|]; exists waits; split; [done|lia]).
  rewrite bool_decide_eq_false_2 by done. cbn [andb].
  destruct (negb (truthy _)).
  { intros [= <- <-]. split; [lia|]. exists waits. split; [done|lia]. }
  unfold PAGE_SIZE. destruct (Z.leb_spec total (start + 100)).
  { intros [= <- <-]. split; [lia|]. exists waits. split; [done|lia]. }
  intros Hl. apply IH in Hl as (Hreq' & waits' & Hw' & Hsum'); [|lia].
  cbv zeta in *. cbn [requests slept] in *.
  assert ((total - (start + 100) + 100 - 1) / 100
          = (total - start + 100 - 1) / 100 - 1) as E
    by (Z.to_euclidean_division_equations; lia).
  rewrite E in *. split; [lia|].
  exists (waits ++ [3] ++ waits').
  rewrite Hw', Hw, <- !app_assoc. split; [done|].
  rewrite !sum_waits_app. simpl. lia.
Qed.

(** The items of a scan come in the order of the pages, which are counted
    from 1. *)
Theorem parse_listings_page_order (fuel : nat) (w : world)
    (r : list item) (w' : world) :
  scan fuel w = (Some (Returned r), w') →
  StronglySorted Z.le (map it_page r) ∧ Forall (fun it => 1 ≤ it_page it) r.
Proof.
  intros H. unfold parse_listings in H.
  apply (parse_loop_pages 1) in H as (? & ? & _); [done|done|constructor..].
Qed.

(** The items of the first page head the result; when the market reports
    at most one page of listings they are the result, and the scan is that
    one fetch. *)
Theorem parse_listings_first_page (fuel : nat) (w : world)
    (data : page_data) (w1 : world) (r : list item) (w' : world) :
  get_item_listings_page net 0 w = (Returned (Some data), w1) →
  default 0 (total_count data) ≠ 0 →
  scan fuel w = (Some (Returned r), w') →
  let first_page :=
    _process_page_listings db self (default [] (listinginfo data))
      (default ∅ (assets data)) item_name desired_gems desired_styles
      max_price 1 in
  first_page `prefix_of` r
  ∧ (default 0 (total_count data) ≤ PAGE_SIZE → r = first_page ∧ w' = w1).
Proof.
  intros Hd Ht. unfold parse_listings. destruct fuel as [|fuel]; [done|].
  rewrite parse_loop_S, Hd. cbv zeta.
  rewrite (bool_decide_eq_true_2 (None = None)) by done. cbn [andb].
  destruct (Z.eqb_spec (default 0 (total_count data)) 0) as [|_]; [done|].
  change (0 / PAGE_SIZE + 1) with 1. cbn [app].
  destruct (default [] (listinginfo data)) as [|e li] eqn:El.
  { cbn [truthy negb]. intros [= <- <-]. split; [|split]; done. }
  change (negb (truthy (e :: li))) with false. cbv iota.
  change (0 + PAGE_SIZE) with PAGE_SIZE.
  destruct (Z.leb_spec (default 0 (total_count data)) PAGE_SIZE).
  { by intros [= <- <-]. }
  intros Hl. split; [|lia].
  apply (parse_loop_pages 1) in Hl as (_ & _ & Hpre); [done|done| |].
  - change (PAGE_SIZE / PAGE_SIZE) with 1.
    pose proof (page_items_page data 0) as Hp. rewrite El in Hp.
    change (0 / PAGE_SIZE + 1) with 1 in Hp.
    eapply Forall_impl; [exact Hp|]. intros it ?. cbn beta in *. lia.
  - pose proof (page_items_page data 0) as Hp. rewrite El in Hp.
    by eapply same_page_sorted.
Qed.

(** A scan, however it ends, sends three requests a page at most, and its
    waits add up to at most 360 seconds a page and 3 seconds between two
    pages, for the number of pages that the first answer reports. *)
Theorem parse_listings_cost (fuel : nat) (w : world)
    (r : result (list item)) (w' : world) :
  scan fuel w = (Some r, w') →
  let total := match fst (get_item_listings_page net 0 w) with
               | Returned (Some data) => default 0 (total_count data)
               | _ => 0
               end in
  (requests w' ≤ requests w + 3 * pages_of total)%nat
  ∧ ∃ waits, slept w' = slept w ++ waits
             ∧ foldr Z.add 0 waits ≤ 363 * Z.of_nat (pages_of total) - 3.
Proof.
  unfold parse_listings. destruct fuel as [|fuel]; [done|].
  pose proof (get_item_listings_page_cost net 0 w)
    as (Hreq & waits & Hw & Hsum).
  cbv zeta in *. rewrite parse_loop_S.
  destruct (get_item_listings_page net 0 w) as [[[data|]|e] w1];
    cbn [fst snd] in *; cbv zeta.
  2,3:(intros [= <- <-]; change (pages_of 0) with 1%nat;
       split; [lia|]; exists waits; split; [done|lia]).
  set (total := default 0 (total_count data)).
  assert (Hn : (1 ≤ pages_of total)%nat) by (unfold pages_of; lia).
  destruct (bool_decide (None = None) && _).
  { intros [= <- <-]. split; [lia|]. exists waits. split; [done|lia]. }
  destruct (negb (truthy _)).
  { intros [= <- <-]. split; [lia|]. exists waits. split; [done|lia]. }
  unfold PAGE_SIZE. destruct (Z.leb_spec total (0 + 100)).
  { intros [= <- <-]. split; [lia|]. exists waits. split; [done|lia]. }
  intros Hl. apply parse_loop_cost in Hl as (Hreq' & waits' & Hw' & Hsum');
    [|lia].
  cbv zeta in *. cbn [requests slept] in *. clear Hn.
  unfold pages_of, PAGE_SIZE in *.
  split; [Z.to_euclidean_division_equations; lia|].
  exists (waits ++ [3] ++ waits').
  rewrite Hw', Hw, <- !app_assoc. split; [done|].
  rewrite !sum_waits_app. cbn [foldr].
  Z.to_euclidean_division_equations; lia.
Qed.
End ScanMore.

Lemma parse_listings_page_order_witness :
  let r := [Item (utf8 "Onibi") (usd_of_cents 1500) (utf8 "7") [] [] 1] in
  StronglySorted Z.le (map it_page r) ∧ Forall (fun it => 1 ≤ it_page it) r.
Proof.
  apply (parse_listings_page_order
           (fun _ _ =>
              Response 200
                (Json (PageData true (Some 1)
                         (Some [(utf8 "7",
                                 Listing (Some 1000) (Some 500) None)]) None)))
           basic_db (Parser 570 ∅) (utf8 "Onibi") None None 0 1 (World 0 [])
           _ (World 1 [])).
  vm_compute. reflexivity.
Defined.

Lemma parse_listings_first_page_witness :
  let data := PageData true (Some 1)
                (Some [(utf8 "7", Listing (Some 1000) (Some 500) None)])
                None in
  let r := [Item (utf8 "Onibi") (usd_of_cents 1500) (utf8 "7") [] [] 1] in
  let first_page :=
    _process_page_listings basic_db (Parser 570 ∅)
      (default [] (listinginfo data)) (default ∅ (assets data))
      (utf8 "Onibi") None None 0 1 in
  first_page `prefix_of` r
  ∧ (default 0 (total_count data) ≤ PAGE_SIZE
     → r = first_page ∧ World 1 [] = World 1 []).
Proof.
  cbv zeta.
  apply (parse_listings_first_page
           (fun _ _ =>
              Response 200
                (Json (PageData true (Some 1)
                         (Some [(utf8 "7",
                                 Listing (Some 1000) (Some 500) None)]) None)))
           basic_db (Parser 570 ∅) (utf8 "Onibi") None None 0 1 (World 0 [])
           _ (World 1 []) _ (World 1 [])).
  - vm_compute. reflexivity.
  - simpl. lia.
  - vm_compute. reflexivity.
Defined.

Lemma parse_listings_cost_witness :
  let w' := snd (parse_listings (fun _ _ => Response 429 BadJson) basic_db
                   (Parser 570 ∅) (utf8 "Onibi") None None 0 1 (World 0 [])) in
  (requests w' ≤ 0 + 3 * pages_of 0)%nat
  ∧ ∃ waits, slept w' = [] ++ waits
             ∧ foldr Z.add 0 waits ≤ 363 * Z.of_nat (pages_of 0) - 3.
Proof.
  apply (parse_listings_cost (fun _ _ => Response 429 BadJson) basic_db
           (Parser 570 ∅) (utf8 "Onibi") None None 0 1 (World 0 [])
           (Returned [])).
  vm_compute. reflexivity.
Defined.

(* ===================================================================== *)
(** ** The notifications of the driver *)
(* ===================================================================== *)

Lemma elem_of_delivered_ids (delivered : nat -> bool) (items : list item)
    (x : str) :
  ∀ k, x ∈ delivered_ids delivered k items ↔
       ∃ i it, items !! i = Some it ∧ delivered (k + i)%nat = true
               ∧ it_listing_id it = x.
Proof.
  induction items as [|it items IH]; intros k; cbn [delivered_ids].
  - split; [by intros ?%elem_of_nil|]. by intros (i & it & ? & _).
  - assert (Hrest : x ∈ delivered_ids delivered (S k) items ↔
                    ∃ i it', (it :: items) !! S i = Some it'
                             ∧ delivered (k + S i)%nat = true
                             ∧ it_listing_id it' = x).
    { rewrite IH. by setoid_rewrite Nat.add_succ_r. }
    destruct (delivered k) eqn:Ek.
    + rewrite elem_of_cons, Hrest. split.
      * intros [->|(i & it' & ?)]; [|by exists (S i), it'].
        exists 0%nat, it. by rewrite Nat.add_0_r.
      * intros ([|i] & it' & Hi & Hd & Hx).
        -- left. by injection Hi as ->.
        -- right. by exists i, it'.
    + rewrite Hrest. split.
      * intros (i & it' & ?). by exists (S i), it'.
      * intros ([|i] & it' & Hi & Hd & Hx); [|by exists i, it'].
        rewrite Nat.add_0_r in Hd. congruence.
Qed.

(** The state after the messages for [items], the first being the [k]-th. *)
Lemma notify_fold_spec (delivered : nat -> bool) (items : list item) :
  ∀ self k,
    let r := fold_left (notify_step delivered) items (self, k) in
    app_id (fst r) = app_id self
    ∧ notified_listings (fst r)
      = notified_listings self ∪ list_to_set (delivered_ids delivered k items)
    ∧ snd r = (k + length items)%nat.
Proof.
  induction items as [|it items IH]; intros self k; cbv zeta.
  - cbn [fold_left delivered_ids fst snd length].
    split_and!; [done| |lia].
    rewrite list_to_set_nil. by rewrite (right_id_L ∅ (∪)).
  - cbn [fold_left notify_step delivered_ids length].
    destruct (IH (if delivered k then mark_as_notified self (it_listing_id it)
                  else self) (S k)) as (Ha & Hn & Hk).
    cbv zeta in *. rewrite Ha, Hn, Hk.
    destruct (delivered k); cbn [mark_as_notified app_id notified_listings].
    + split_and!; [done| |lia].
      rewrite list_to_set_cons. by rewrite (assoc_L (∪)).
    + split_and!; [done..|lia].
Qed.

(** After the notifications of a cycle the parser has marked, beside what
    it had, the identifiers of the items among the first five whose message
    was delivered, and of no other; one message was sent for each of the
    first five items. *)
Theorem notify_found_notified (delivered : nat -> bool) (self : parser)
    (found_items : list item) :
  let r := notify_found delivered self found_items in
  (∀ x, x ∈ notified_listings (fst r) ↔
        x ∈ notified_listings self
        ∨ ∃ k it, (k < 5)%nat ∧ found_items !! k = Some it
                  ∧ delivered k = true ∧ it_listing_id it = x)
  ∧ snd r = (length found_items `min` 5)%nat
  ∧ app_id (fst r) = app_id self.
Proof.
  cbv zeta. unfold notify_found.
  destruct (notify_fold_spec delivered (take 5 found_items) self 0)
    as (Ha & Hn & Hk).
  cbv zeta in *. split_and!; [|by rewrite Hk, length_take; lia|done].
  intros x. rewrite Hn, elem_of_union, elem_of_list_to_set,
    elem_of_delivered_ids.
  split; (intros [?|(k & it & H1 & H2 & H3)]; [by left|right]).
  - apply lookup_take_Some in H1 as [? ?]. by exists k, it.
  - destruct H3 as [? ?]. exists k, it.
    split_and!; [by apply lookup_take_Some|done..].
Qed.

Lemma filter_sublist_of {A} (f : A -> bool) (l : list A) :
  List.filter f l `sublist_of` l.
Proof.
  induction l as [|x l IH]; cbn [List.filter]; [constructor|].
  destruct (f x); by constructor.
Qed.

Section Rescan.
Context (db : unicode_db) (assets : assets_map)
        (item_name : str) (desired_gems : option (list str))
        (desired_styles : option (list Z)) (max_price : Q) (page_num : Z).

Local Abbreviation page self listinginfo :=
  (_process_page_listings db self listinginfo assets item_name desired_gems
                          desired_styles max_price page_num).

(** When the market serves the same page again after the notifications,
    the parser gives the items of before without those whose message was
    delivered: an item whose message failed, and every item past the fifth,
    comes again. *)
Theorem rescan_after_notify (delivered : nat -> bool) (self : parser)
    (listinginfo : list (str * listing)) :
  NoDup (map fst listinginfo) →
  let found_items := page self listinginfo in
  let rescan := page (fst (notify_found delivered self found_items))
                     listinginfo in
  rescan `sublist_of` found_items
  ∧ ∀ k it, found_items !! k = Some it →
            (it ∈ rescan ↔ ¬ ((k < 5)%nat ∧ delivered k = true)).
Proof.
  intros Hnd. cbv zeta.
  set (found_items := page self listinginfo).
  unfold notify_found.
  destruct (notify_fold_spec delivered (take 5 found_items) self 0)
    as (Ha & Hn & _).
  cbv zeta in *.
  rewrite (page_notified_more db assets item_name desired_gems desired_styles
             page_num self _ _ max_price listinginfo Ha Hn).
  fold found_items. split; [apply filter_sublist_of|].
  assert (Hids : NoDup (map it_listing_id found_items)).
  { eapply sublist_NoDup; [exact Hnd|apply page_ids_sublist]. }
  intros k it Hk. rewrite list_elem_of_In, filter_In, <- list_elem_of_In.
  rewrite negb_true_iff, bool_decide_eq_false, elem_of_delivered_ids.
  split.
  - intros [_ Hno] [Hlt Hd]. apply Hno. exists k, it.
    split_and!; [by apply lookup_take_Some|done..].
  - intros Hno. split; [by eapply list_elem_of_lookup_2|].
    intros (i & it' & Hi & Hd & Hx).
    apply lookup_take_Some in Hi as [Hi Hlt].
    assert (i = k) as ->.
    { eapply NoDup_lookup; [exact Hids| |].
      - by rewrite list_lookup_fmap, Hi.
      - by rewrite list_lookup_fmap, Hk, Hx. }
    by apply Hno.
Qed.
End Rescan.

Lemma rescan_after_notify_witness :
  let listinginfo := [(utf8 "1", Listing (Some 1000) (Some 500) None);
                      (utf8 "2", Listing (Some 900) (Some 100) None)] in
  let delivered := fun k => Nat.eqb k 0 in
  let found_items :=
    _process_page_listings basic_db (Parser 570 ∅) listinginfo ∅
      (utf8 "Onibi") None None 0 1 in
  let rescan :=
    _process_page_listings basic_db
      (fst (notify_found delivered (Parser 570 ∅) found_items))
      listinginfo ∅ (utf8 "Onibi") None None 0 1 in
  rescan `sublist_of` found_items
  ∧ ∀ k it, found_items !! k = Some it →
            (it ∈ rescan ↔ ¬ ((k < 5)%nat ∧ delivered k = true)).
Proof.
  apply (rescan_after_notify basic_db ∅ (utf8 "Onibi") None None 0 1
           (fun k => Nat.eqb k 0) (Parser 570 ∅)
           [(utf8 "1", Listing (Some 1000) (Some 500) None);
            (utf8 "2", Listing (Some 900) (Some 100) None)]).
  vm_compute. apply NoDup_cons. split; [|apply NoDup_singleton].
  rewrite list_elem_of_singleton. discriminate.
Defined.
